(** * Numerov integration of the radial Schrödinger equation

    A shallow embedding of [numerov_solve] and [square_well] from
    [Second_notebook_SE_solver.ipynb], and the properties of [numerov_solve];
    then the prime searches of the first notebook, in [Module Primes].

    Numbers are IEEE-754 binary64 (Rocq's primitive floats), which is what a
    NumPy [float64] array holds; NumPy arrays live in an explicit store.

    - A NumPy array is a location of the store and its contents a list of
      floats.  [u = np.zeros(N)] allocates, [u[i] = x] updates in place and
      [r[i]] reads; both raise [IndexError] out of range.
    - NumPy's true division never raises: a zero divisor gives an infinity
      or NaN (and a warning).  The divisor of every division the program
      performs is appended to a log in the state, so that "the divisions
      performed by a call" can be spoken of.
    - The arguments are the ones of the notebook's call
      [numerov_solve(square_well, r, k = 1.2, l = 0)]: [V] a vectorised
      potential (a function applied to every element of the grid), [r] a
      one-dimensional [float64] array, [k] a Python float and [l] a Python
      int.
    - [k**2] on a Python float is CPython's [float_pow], which raises
      [OverflowError] when the result overflows.  [h] and [r[1]] are NumPy
      scalars, whose [**] calls the C library's [pow] and raises nothing;
      [pow] is a parameter of the development.
    - [l * (l + 1)] is an unbounded Python int.  Dividing it by an array
      converts it to float64, which raises [OverflowError] ("int too large
      to convert to float") when it does not fit.  [pow] takes the exponent
      [l + 1] as an integer: an exponent that is too large for a float64
      raises [OverflowError] in the code, and then [l * (l + 1)] is too
      large as well and the call raises the same exception here.
    - Memory is not bounded for the solver, whose arrays have the size of the
      grid.  It is bounded for the sieve of the prime searches, whose size is
      a value of the input.

    The file has the definitions first (interpreter, program, statements,
    concrete inputs) and then the lemmas and the theorems. *)

From Stdlib Require Import ZArith List Floats Lia Bool Znumtheory.
From stdpp Require Import base option list gmap sorting.

(** ** Exceptions, results and the state monad of the interpreter *)

Inductive exn := IndexError | OverflowError | ZeroDivisionError.

Inductive result (A : Type) :=
| Ok (a : A)
| Raise (e : exn).
Arguments Ok {A} a.
Arguments Raise {A} e.

Abbreviation loc := positive.

(** [arrays]: the NumPy arrays alive in the interpreter.
    [divisors]: the divisor of every floating-point division performed so
    far, oldest first. *)
Record state := State {
  arrays : gmap loc (list float);
  divisors : list float
}.

Definition M (A : Type) : Type := state -> result (A * state).

Definition ret {A} (a : A) : M A := fun s => Ok (a, s).

Definition bind {A B} (m : M A) (k : A -> M B) : M B :=
  fun s => match m s with
           | Ok (a, s') => k a s'
           | Raise e => Raise e
           end.

Definition raise {A} (e : exn) : M A := fun _ => Raise e.

Declare Scope py_scope.
Delimit Scope py_scope with py.
Notation "x <- m ;; k" := (bind m (fun x => k))
  (at level 100, m at next level, right associativity) : py_scope.
Notation "m ;;; k" := (bind m (fun _ => k))
  (at level 100, right associativity) : py_scope.

Definition lift {A} (r : result A) : M A :=
  fun s => match r with Ok a => Ok (a, s) | Raise e => Raise e end.

(** [for x in xs: body x] *)
Fixpoint for_each {A} (xs : list A) (body : A -> M unit) : M unit :=
  match xs with
  | [] => ret tt
  | x :: xs' => bind (body x) (fun _ => for_each xs' body)
  end.

(** Elementwise (vectorised) evaluation of an effectful scalar operation. *)
Fixpoint map_M {A B} (f : A -> M B) (xs : list A) : M (list B) :=
  match xs with
  | [] => ret []
  | x :: xs' => bind (f x) (fun y => bind (map_M f xs') (fun ys => ret (y :: ys)))
  end.

(** ** NumPy arrays *)

(** [a[i]] for a non-negative index. *)
Definition getitem (a : loc) (i : nat) : M float :=
  fun s => match arrays s !! a ≫= (.!! i) with
           | Some x => Ok (x, s)
           | None => Raise IndexError
           end.

(** [a[i] = x] for a non-negative index: in place. *)
Definition setitem (a : loc) (i : nat) (x : float) : M unit :=
  fun s => match arrays s !! a with
           | Some xs =>
               if decide (i < length xs)
               then Ok (tt, State (<[a := <[i := x]> xs]> (arrays s)) (divisors s))
               else Raise IndexError
           | None => Raise IndexError
           end.

(** [a.shape[0]] *)
Definition shape0 (a : loc) : M nat :=
  fun s => match arrays s !! a with
           | Some xs => Ok (length xs, s)
           | None => Raise IndexError
           end.

(** The contents of [a], as read by a vectorised operation. *)
Definition contents (a : loc) : M (list float) :=
  fun s => match arrays s !! a with
           | Some xs => Ok (xs, s)
           | None => Raise IndexError
           end.

(** [np.zeros(n)]: a fresh array. *)
Definition np_zeros (n : nat) : M loc :=
  fun s => let a := fresh (dom (arrays s)) in
           Ok (a, State (<[a := replicate n 0%float]> (arrays s)) (divisors s)).

(** [local[i]] on an array that is a local temporary of the function. *)
Definition index (xs : list float) (i : nat) : M float :=
  match xs !! i with
  | Some x => ret x
  | None => raise IndexError
  end.

(** ** Floating-point operations *)

(** [x / y] on float64: never raises; the divisor is logged. *)
Definition fdiv (x y : float) : M float :=
  fun s => Ok ((x / y)%float, State (arrays s) (divisors s ++ [y])).

(** An integer rounded to float64: exact below 2^53 in magnitude, rounded to
    nearest even above, and an infinity when the rounded value is beyond the
    largest float64 (which no [int64] reaches). *)
Definition float_of_int (z : Z) : float :=
  SF2Prim (binary_normalize prec emax z 0 false).

(** A Python [int] converted to float64 (CPython's [PyLong_AsDouble]): the
    rounded value, or "OverflowError: int too large to convert to float"
    when the rounded value is beyond the largest float64. *)
Definition int_to_float (z : Z) : result float :=
  let x := float_of_int z in
  if is_infinity x then Raise OverflowError else Ok x.

(** Sign bit, as C's [copysign] reads it. *)
Definition signbit (x : float) : bool :=
  match Prim2SF x with
  | S754_zero s | S754_infinity s | S754_finite s _ _ => s
  | S754_nan => false
  end.

Section Numerov.

(** The C library's [pow(x, (double) n)]. *)
Variable pow : float -> Z -> float.

(** [x ** n] for a Python float [x] and a Python int [n] (CPython's
    [float_pow]): special cases are sorted out before calling [pow], which is
    only reached with a positive finite base other than 1, and an infinite
    result of [pow] is reported as [OverflowError]. *)
Definition float_pow (x : float) (n : Z) : result float :=
  if (n =? 0)%Z then Ok 1%float
  else if is_nan x then Ok x
  else if is_infinity x then
    if (0 <? n)%Z then Ok (if Z.odd n then x else abs x)
    else Ok (if Z.odd n && signbit x then (-0)%float else 0%float)
  else if (x =? 0)%float then
    if (n <? 0)%Z then Raise ZeroDivisionError
    else Ok (if Z.odd n then x else 0%float)
  else
    let negate_result := (x <? 0)%float && Z.odd n in
    let iv := if (x <? 0)%float then (- x)%float else x in
    if (iv =? 1)%float then Ok (if negate_result then (-1)%float else 1%float)
    else
      let ix := pow iv n in
      if is_infinity ix then Raise OverflowError
      else Ok (if negate_result then (- ix)%float else ix).

(** ** The notebook's functions *)

(** [square_well(r, r_0 = 4, V_0 = -10)]: [np.where(r < r_0, V_0, 0)],
    at one element of [r]. *)
Definition square_well (r r_0 V_0 : float) : float :=
  if (r <? r_0)%float then V_0 else 0%float.

Local Open Scope py_scope.

(** [V_eff = V(r) + (l * (l + 1) / np.square(r))].  A potential is a
    vectorised scalar function, as [square_well] is.  The Python int
    [l * (l + 1)] is converted to float64 once, before the elementwise
    division. *)
Definition V_eff (V : float -> float) (r : loc) (l : Z)
  : M (list float) :=
  rs <- contents r ;;
  let Vr := map V rs in
  c <- lift (int_to_float (l * (l + 1))) ;;
  q <- map_M (fun x => fdiv c (x * x)%float) rs ;;
  ret (zip_with PrimFloat.add Vr q).

(** [f = k**2 - V_eff] *)
Definition numerov_f (V : float -> float) (r : loc) (k : float) (l : Z)
  : M (list float) :=
  Ve <- V_eff V r l ;;
  k2 <- lift (float_pow k 2) ;;
  ret (map (fun v => (k2 - v)%float) Ve).

(** One pass of the body of the Numerov loop:
[[
  u[i + 1] = ((2 * (1 - (5 * h**2 / 12) * f[i]) * u[i] -
               (1 + (h**2 / 12) * f[i - 1]) * u[i - 1]) /
              (1 + (h**2 / 12) * f[i + 1]))
]] *)
Definition numerov_step (h : float) (f : list float) (u : loc) (i : nat)
  : M unit :=
  c5 <- fdiv (5 * pow h 2)%float 12%float ;;
  f_i <- index f i ;;
  u_i <- getitem u i ;;
  c1 <- fdiv (pow h 2) 12%float ;;
  f_m <- index f (i - 1) ;;
  u_m <- getitem u (i - 1) ;;
  c1' <- fdiv (pow h 2) 12%float ;;
  f_p <- index f (i + 1) ;;
  q <- fdiv (2 * (1 - c5 * f_i) * u_i - (1 + c1 * f_m) * u_m)%float
            (1 + c1' * f_p)%float ;;
  setitem u (i + 1) q.

(** [numerov_solve(V, r, k, l)] *)
Definition numerov_solve (V : float -> float) (r : loc) (k : float) (l : Z)
  : M (loc * loc) :=
  (* h = r[1] - r[0] *)
  r_1 <- getitem r 1 ;;
  r_0 <- getitem r 0 ;;
  let h := (r_1 - r_0)%float in
  (* N = r.shape[0] *)
  N <- shape0 r ;;
  u <- np_zeros N ;;
  setitem u 0 0%float ;;;
  r_1 <- getitem r 1 ;;
  setitem u 1 (pow r_1 (l + 1)) ;;;
  f <- numerov_f V r k l ;;
  (* for i in range(1, N - 1) *)
  for_each (seq 1 (N - 2)) (numerov_step h f u) ;;;
  ret (r, u).

End Numerov.


(** ** Statements

    The definitions that the lemmas and theorems are stated with. *)

Section Statements.

Variable pow : float -> Z -> float.

(** The three-point relation of the specification at interior index [i]. *)
Definition numerov_relation (h : float) (f u : list float) (i : nat) : Prop :=
  exists f_m f_i f_p u_m u_i,
    f !! (i - 1) = Some f_m /\ f !! i = Some f_i /\ f !! (i + 1) = Some f_p /\
    u !! (i - 1) = Some u_m /\ u !! i = Some u_i /\
    u !! (i + 1) =
      Some ((2 * (1 - (5 * pow h 2 / 12) * f_i) * u_i
             - (1 + (pow h 2 / 12) * f_m) * u_m)
            / (1 + (pow h 2 / 12) * f_p))%float.

(** The effective potential and the driver as functions of the grid values. *)
Definition V_eff_at (V : float -> float) (l : Z) (x : float) : float :=
  (V x + float_of_int (l * (l + 1)) / (x * x))%float.

Definition f_at (V : float -> float) (k2 : float) (l : Z) (x : float) : float :=
  (k2 - V_eff_at V l x)%float.

(** The divisors of the loop's passes [a], [a + 1], ..., [a + n - 1]. *)
Definition step_divisors (h : float) (f : list float) (i : nat) : list float :=
  match f !! (i + 1) with
  | Some f_p => [12; 12; 12; 1 + (pow h 2 / 12) * f_p]%float
  | None => []
  end.

Definition loop_divisors (h : float) (f : list float) (a n : nat) : list float :=
  flat_map (step_divisors h f) (seq a n).

End Statements.

(** Infinite or NaN. *)
Definition nonfinite (x : float) : Prop :=
  match Prim2SF x with
  | S754_infinity _ | S754_nan => True
  | _ => False
  end.

(** What the caller of [numerov_solve] gets: the values of the two returned
    arrays, or the exception. *)
Definition returned_values (res : result (loc * loc * state))
  : result (option (list float) * option (list float)) :=
  match res with
  | Ok ((r, u), s') => Ok (arrays s' !! r, arrays s' !! u)
  | Raise e => Raise e
  end.

(** ** Concrete inputs *)

(** A reference [pow] for integer exponents by repeated multiplication.  It
    agrees with any faithful [pow] wherever the power is exactly
    representable or overflows, which is the case at every input used
    below. *)
Definition powi (x : float) (n : Z) : float :=
  match n with
  | Z0 => 1%float
  | Zpos p => Pos.iter (PrimFloat.mul x) 1%float p
  | Zneg p => (1 / Pos.iter (PrimFloat.mul x) 1%float p)%float
  end.

(** The notebook's potential: [square_well] with its default arguments. *)
Definition well (r : float) : float := square_well r 4 (-10).

(** An interpreter state holding one array, the grid, at location 1. *)
Definition grid_state (rs : list float) : state :=
  State {[ 1%positive := rs ]} [].

(** A uniform grid of four points with step 0.5. *)
Definition demo_grid : list float := [0.5; 1; 1.5; 2]%float.

(** A potential that is NaN at [r = 2] and zero elsewhere. *)
Definition nan_at_two (x : float) : float :=
  if (x =? 2)%float then nan else 0%float.

(** The state after one call on [demo_grid]. *)
Definition after_one_call : state :=
  match numerov_solve powi well 1%positive 1.5%float 0 (grid_state demo_grid) with
  | Ok (_, s') => s'
  | Raise _ => grid_state demo_grid
  end.

(** ** The prime-checking notebook

    [brute_force], [smarter_search] and [even_smarter_search] of the first
    notebook.  An integer NumPy array is a list of [Z] (its [int64] elements),
    a boolean array a list of [bool], and the array of indices a function
    returns a list of [nat].

    The sieve of [even_smarter_search] has as many elements as the largest
    value of the input, whatever the length of the input, so that allocating
    it is what fails first when memory runs out: [memory] is the number of
    array elements that [np.ones] can allocate, and a larger request raises
    [MemoryError].  The other arrays are taken to fit. *)

Module Primes.

Inductive error := ValueError | OverflowError | IndexError | MemoryError.

Inductive outcome (A : Type) :=
| Done (a : A)
| Fail (e : error).
Arguments Done {A} a.
Arguments Fail {A} e.

Definition and_then {A B} (m : outcome A) (k : A -> outcome B) : outcome B :=
  match m with Done a => k a | Fail e => Fail e end.

(** A loop [for x in xs] over a state [a], left by the first exception. *)
Fixpoint fold_outcome {A B} (f : A -> B -> outcome A) (xs : list B) (a : A)
  : outcome A :=
  match xs with
  | [] => Done a
  | x :: xs' => and_then (f a x) (fold_outcome f xs')
  end.

(** [a, a + 1, ...], [len] numbers. *)
Fixpoint count_from (a : Z) (len : nat) : list Z :=
  match len with
  | O => []
  | S len' => a :: count_from (a + 1) len'
  end.

(** [range(a, b)] *)
Definition range (a b : Z) : list Z := count_from a (Z.to_nat (b - a)).

(** The [for ... else] loop of the two searches,
[[
  for i in candidates:
      if n % i == 0:
          break
  else:
      ...
]]
    [true] when the loop ends without [break], so that the [else] branch
    runs. *)
Fixpoint for_else (n : Z) (candidates : list Z) : bool :=
  match candidates with
  | [] => true
  | i :: rest => if (n mod i =? 0)%Z then false else for_else n rest
  end.

(** [brute_force(ns)]; [ns[index]] is never out of range. *)
Definition brute_force (ns : list Z) : list nat :=
  fold_left
    (fun prime_indices index =>
       match ns !! index with
       | Some n =>
           if (n <? 2)%Z then prime_indices
           else if for_else n (range 2 (n - 1))
                then prime_indices ++ [index]
                else prime_indices
       | None => prime_indices
       end)
    (seq 0 (length ns)) [].

(** [int(x)] on a float: truncation towards zero; NaN and the infinities
    raise. *)
Definition int_of_float (x : float) : outcome Z :=
  match Prim2SF x with
  | S754_nan => Fail ValueError
  | S754_infinity _ => Fail OverflowError
  | S754_zero _ => Done 0%Z
  | S754_finite s m e => Done (cond_Zopp s (Z.shiftl (Zpos m) e))
  end.

(** [int(np.sqrt(n))] for an [int64] [n]: [n] is converted to float64 and
    the square root is the correctly rounded one. *)
Definition int_sqrt (n : Z) : outcome Z :=
  int_of_float (PrimFloat.sqrt (float_of_int n)).

(** [smarter_search(ns)] *)
Definition smarter_search (ns : list Z) : outcome (list nat) :=
  fold_outcome
    (fun prime_indices index =>
       match ns !! index with
       | Some n =>
           if (n <? 2)%Z then Done prime_indices
           else
             and_then (int_sqrt n) (fun s =>
               Done (if for_else n (range 2 (s + 1))
                     then prime_indices ++ [index]
                     else prime_indices))
       | None => Fail IndexError
       end)
    (seq 0 (length ns)) [].

(** [np.max(ns)]: raises on an empty array. *)
Definition np_max (ns : list Z) : outcome Z :=
  match ns with
  | [] => Fail ValueError
  | n :: rest => Done (fold_left Z.max rest n)
  end.

(** [int64] arithmetic wraps around. *)
Definition wrap_int64 (z : Z) : Z := ((z + 2 ^ 63) mod 2 ^ 64 - 2 ^ 63)%Z.

(** [np.ones(n, dtype = bool)]: raises [ValueError] on a negative size and
    [MemoryError] on a size that cannot be allocated. *)
Definition np_ones (memory : N) (n : Z) : outcome (list bool) :=
  if (n <? 0)%Z then Fail ValueError
  else if (Z.of_N memory <? n)%Z then Fail MemoryError
  else Done (replicate (Z.to_nat n) true).

(** [a[start:stop:step] = False] for non-negative [start] and [stop] and a
    positive [step]: the indices [start], [start + step], ... below [stop]
    and below the length of [a]. *)
Definition assign_slice_false (a : list bool) (start stop step : Z)
  : list bool :=
  imap (fun j b =>
          if bool_decide (start <= Z.of_nat j < stop
                          /\ (Z.of_nat j - start) mod step = 0)%Z
          then false else b) a.

(** [np.nonzero(a)[0]]: the indices of the set elements, increasing. *)
Definition np_nonzero (a : list bool) : list nat :=
  filter (fun j => a !! j = Some true) (seq 0 (length a)).

(** [np.intersect1d(xs, ys)]: the sorted, unique values that are in both. *)
Definition np_intersect1d (xs ys : list Z) : list Z :=
  merge_sort Z.le (remove_dups (filter (fun x => x ∈ ys) xs)).

(** [np.isin(xs, test)] *)
Definition np_isin (xs test : list Z) : list bool :=
  map (fun x => bool_decide (x ∈ test)) xs.

(** One pass of the loop of the sieve:
[[
  if sieve[i]:
      sieve[i*i:max_n + 1:i] = False
]] *)
Definition sieve_pass (stop : Z) (sieve : list bool) (i : Z)
  : outcome (list bool) :=
  match sieve !! Z.to_nat i with
  | Some true => Done (assign_slice_false sieve (i * i) stop i)
  | Some false => Done sieve
  | None => Fail IndexError
  end.

(** [even_smarter_search(ns)], run with room for [memory] array elements. *)
Definition even_smarter_search (memory : N) (ns : list Z)
  : outcome (list nat) :=
  and_then (np_max ns) (fun max_n =>
  and_then (np_ones memory (wrap_int64 (max_n + 1))) (fun sieve =>
  let sieve := assign_slice_false sieve 0 2 1 in
  and_then (int_sqrt max_n) (fun s =>
  and_then (fold_outcome (sieve_pass (wrap_int64 (max_n + 1)))
              (range 2 (s + 1)) sieve) (fun sieve =>
  let primes := map Z.of_nat (np_nonzero sieve) in
  let primes_in_ns := np_intersect1d primes ns in
  Done (np_nonzero (np_isin ns primes_in_ns)))))).

(** The notebook's [test_array]. *)
Definition test_array : list Z :=
  [3907; 4809; 1118; 1391; 3941; 1246; 2827; 2035; 1000; 1804;
   4775; 3979; 4693; 1790; 4472; 3417; 4976; 386; 772; 4125;
   138; 4677; 4400; 1806; 398; 4263; 1124; 971; 1472; 2798;
   2176; 4819; 2965; 193; 3388; 2896; 907; 4140; 828; 1343;
   899; 1711; 640; 4228; 4364; 4829; 3609; 1361; 558; 3902;
   2329; 1178; 3414; 2300; 986; 3514; 2011; 467; 2254; 439;
   2624; 1329; 1951; 4188; 1505; 3756; 2928; 4084; 1780; 316;
   1746; 2933; 125; 1801; 4818; 654; 4458; 2274; 2121; 3859;
   882; 4700; 2041; 1676; 4865; 3371; 1525; 3716; 3584; 3427;
   4483; 3677; 62; 3449; 493; 1125; 3931; 3586; 3597; 3307]%Z.

End Primes.

#[local] Instance prime_decision (n : Z) : Decision (Z.prime n).
Proof.
  destruct (prime_dec n) as [H|H].
  - left. apply prime_alt. exact H.
  - right. intros Hp. apply H, prime_alt. exact Hp.
Defined.

(** The array element at [index] is a prime number. *)
Definition prime_at (ns : list Z) (index : nat) : Prop :=
  exists n, ns !! index = Some n /\ Z.prime n.

#[local] Instance prime_at_decision ns index : Decision (prime_at ns index).
Proof.
  unfold prime_at. destruct (ns !! index) as [n|].
  - destruct (decide (Z.prime n)) as [H|H].
    + left. exists n. split; [reflexivity | exact H].
    + right. intros (m & E & Hm). injection E as <-. exact (H Hm).
  - right. intros (m & E & _). discriminate E.
Defined.

(** [int(np.sqrt(n))] is at least the integer square root of [n] and below
    [n]. *)
Definition sqrt_in_range (n : Z) : bool :=
  match Primes.int_sqrt n with
  | Primes.Done s => (Z.sqrt n <=? s)%Z && (s <? n)%Z
  | Primes.Fail _ => false
  end.

(** The state of the sieve before the pass for [I]: [sieve[j]] is set exactly
    when [j >= 2] has no divisor [d] with [2 <= d < I] and [d*d <= j]. *)
Definition sieved (max_n I : Z) (sieve : list bool) : Prop :=
  length sieve = Z.to_nat (max_n + 1)
  /\ forall (j : nat) b, sieve !! j = Some b ->
       b = true <->
       (2 <= Z.of_nat j)%Z
       /\ forall d : Z,
            (2 <= d < I)%Z -> (d * d <= Z.of_nat j)%Z -> ~ (d | Z.of_nat j)%Z.

(** ** Evaluation lemmas for the monad and the array primitives *)

Section Evaluation.

Context {A B : Type}.

Lemma bind_ok (m : M A) (k : A -> M B) s a s' :
  m s = Ok (a, s') -> bind m k s = k a s'.
Proof. unfold bind. intros ->. reflexivity. Qed.

Lemma bind_raise (m : M A) (k : A -> M B) s e :
  m s = Raise e -> bind m k s = Raise e.
Proof. unfold bind. intros ->. reflexivity. Qed.

End Evaluation.

Lemma getitem_ok a i s xs x :
  arrays s !! a = Some xs -> xs !! i = Some x -> getitem a i s = Ok (x, s).
Proof. unfold getitem. intros -> E. simpl. rewrite E. reflexivity. Qed.

Lemma getitem_raise a i s xs :
  arrays s !! a = Some xs -> length xs <= i -> getitem a i s = Raise IndexError.
Proof.
  unfold getitem. intros -> E. simpl.
  rewrite (lookup_ge_None_2 xs i) by lia. reflexivity.
Qed.

Lemma setitem_ok a i x s xs :
  arrays s !! a = Some xs -> i < length xs ->
  setitem a i x s = Ok (tt, State (<[a := <[i := x]> xs]> (arrays s)) (divisors s)).
Proof. unfold setitem. intros -> E. rewrite decide_True by exact E. reflexivity. Qed.

Lemma shape0_ok a s xs :
  arrays s !! a = Some xs -> shape0 a s = Ok (length xs, s).
Proof. unfold shape0. intros ->. reflexivity. Qed.

Lemma contents_ok a s xs :
  arrays s !! a = Some xs -> contents a s = Ok (xs, s).
Proof. unfold contents. intros ->. reflexivity. Qed.

Lemma index_ok xs i x s : xs !! i = Some x -> index xs i s = Ok (x, s).
Proof. unfold index. intros ->. reflexivity. Qed.

(** A vectorised division logs the divisors in array order. *)
Lemma map_M_fdiv (c : float) (g : float -> float) xs A D :
  map_M (fun x => fdiv c (g x)) xs (State A D)
  = Ok (map (fun x => (c / g x)%float) xs, State A (D ++ map g xs)).
Proof.
  revert D. induction xs as [|x xs IH]; intros D; simpl.
  - unfold ret. rewrite app_nil_r. reflexivity.
  - unfold bind at 1. unfold fdiv at 1. simpl.
    unfold bind at 1. rewrite IH. unfold ret.
    rewrite <- app_assoc. reflexivity.
Qed.

Lemma zip_with_map_same {X Y Z W : Type} (op : Y -> Z -> W) (g : X -> Y) (g' : X -> Z) xs :
  zip_with op (map g xs) (map g' xs) = map (fun x => op (g x) (g' x)) xs.
Proof. induction xs as [|x xs IH]; simpl; [reflexivity | now rewrite IH]. Qed.

(** ** What one call computes *)

Section Specification.

Variable pow : float -> Z -> float.

(** The conversion of a Python int gives the rounded value or fails with
    [OverflowError]. *)
Lemma int_to_float_ok z c : int_to_float z = Ok c -> c = float_of_int z.
Proof.
  unfold int_to_float. destruct (is_infinity (float_of_int z)); intros H.
  - discriminate H.
  - apply (f_equal (fun o => match o with Ok x => x | Raise _ => c end)) in H.
    symmetry. exact H.
Qed.

Lemma int_to_float_raise z e : int_to_float z = Raise e -> e = OverflowError.
Proof.
  unfold int_to_float. destruct (is_infinity (float_of_int z)); intros H.
  - injection H as <-. reflexivity.
  - discriminate H.
Qed.

Lemma V_eff_ok V r l rs c A D :
  A !! r = Some rs -> int_to_float (l * (l + 1)) = Ok c ->
  V_eff V r l (State A D)
  = Ok (map (V_eff_at V l) rs, State A (D ++ map (fun x => (x * x)%float) rs)).
Proof.
  intros Hr Hc. pose proof (int_to_float_ok _ _ Hc) as ->. unfold V_eff.
  rewrite (bind_ok _ _ _ rs (State A D)) by (apply contents_ok; exact Hr).
  rewrite (bind_ok _ _ _ (float_of_int (l * (l + 1))) (State A D))
    by (unfold lift; rewrite Hc; reflexivity).
  erewrite bind_ok by apply map_M_fdiv.
  unfold ret. rewrite zip_with_map_same. reflexivity.
Qed.

(** The conversion of [l * (l + 1)] raises: so does line 93. *)
Lemma V_eff_raise V r l rs e A D :
  A !! r = Some rs -> int_to_float (l * (l + 1)) = Raise e ->
  V_eff V r l (State A D) = Raise e.
Proof.
  intros Hr Hc. unfold V_eff.
  rewrite (bind_ok _ _ _ rs (State A D)) by (apply contents_ok; exact Hr).
  apply bind_raise. unfold lift. rewrite Hc. reflexivity.
Qed.

Lemma numerov_f_ok V r k l rs c k2 A D :
  A !! r = Some rs -> int_to_float (l * (l + 1)) = Ok c ->
  float_pow pow k 2 = Ok k2 ->
  numerov_f pow V r k l (State A D)
  = Ok (map (f_at V k2 l) rs, State A (D ++ map (fun x => (x * x)%float) rs)).
Proof.
  intros Hr Hc Hk. unfold numerov_f.
  erewrite bind_ok by (eapply V_eff_ok; [exact Hr | exact Hc]).
  unfold lift, bind, ret. rewrite Hk. rewrite map_map. reflexivity.
Qed.

Lemma numerov_f_raise V r k l rs c e A D :
  A !! r = Some rs -> int_to_float (l * (l + 1)) = Ok c ->
  float_pow pow k 2 = Raise e ->
  numerov_f pow V r k l (State A D) = Raise e.
Proof.
  intros Hr Hc Hk. unfold numerov_f.
  erewrite bind_ok by (eapply V_eff_ok; [exact Hr | exact Hc]).
  unfold lift, bind. rewrite Hk. reflexivity.
Qed.

Lemma numerov_f_int_raise V r k l rs e A D :
  A !! r = Some rs -> int_to_float (l * (l + 1)) = Raise e ->
  numerov_f pow V r k l (State A D) = Raise e.
Proof.
  intros Hr Hc. unfold numerov_f.
  apply bind_raise. eapply V_eff_raise; [exact Hr | exact Hc].
Qed.

Lemma numerov_step_ok h f u i A D us f_m f_i f_p u_m u_i :
  A !! u = Some us ->
  f !! (i - 1) = Some f_m -> f !! i = Some f_i -> f !! (i + 1) = Some f_p ->
  us !! (i - 1) = Some u_m -> us !! i = Some u_i -> i + 1 < length us ->
  numerov_step pow h f u i (State A D)
  = Ok (tt, State (<[u := <[i + 1 :=
                     ((2 * (1 - (5 * pow h 2 / 12) * f_i) * u_i
                       - (1 + (pow h 2 / 12) * f_m) * u_m)
                      / (1 + (pow h 2 / 12) * f_p))%float]> us]> A)
                  (D ++ step_divisors pow h f i)).
Proof.
  intros Hu Hfm Hfi Hfp Hum Hui Hlt. unfold numerov_step, step_divisors.
  rewrite Hfp.
  unfold bind at 1, fdiv at 1. cbn [arrays divisors].
  erewrite bind_ok by (apply index_ok; exact Hfi).
  erewrite bind_ok by (eapply getitem_ok; [exact Hu | exact Hui]).
  unfold bind at 1, fdiv at 1. cbn [arrays divisors].
  erewrite bind_ok by (apply index_ok; exact Hfm).
  erewrite bind_ok by (eapply getitem_ok; [exact Hu | exact Hum]).
  unfold bind at 1, fdiv at 1. cbn [arrays divisors].
  erewrite bind_ok by (apply index_ok; exact Hfp).
  unfold bind at 1, fdiv at 1. cbn [arrays divisors].
  erewrite setitem_ok by first [exact Hu | exact Hlt].
  cbn [arrays divisors]. rewrite <- !app_assoc. reflexivity.
Qed.

Lemma numerov_loop_ok h f u n : forall a A D us,
  A !! u = Some us -> length f = length us -> 1 <= a ->
  (n = 0 \/ a + n < length us) ->
  exists us',
    for_each (seq a n) (numerov_step pow h f u) (State A D)
    = Ok (tt, State (<[u := us']> A) (D ++ loop_divisors pow h f a n))
    /\ length us' = length us
    /\ (forall j, j <= a -> us' !! j = us !! j)
    /\ (forall i, a <= i < a + n -> numerov_relation pow h f us' i).
Proof.
  induction n as [|n IH]; intros a A D us Hu Hlen Ha Hn.
  - exists us. simpl. unfold ret, loop_divisors. simpl.
    rewrite app_nil_r, insert_id by exact Hu.
    split; [reflexivity|]. split; [reflexivity|]. split; [reflexivity|].
    intros i Hi. lia.
  - destruct Hn as [Hn|Hn]; [discriminate|].
    destruct (lookup_lt_is_Some_2 f (a - 1)) as [f_m Hfm]; [lia|].
    destruct (lookup_lt_is_Some_2 f a) as [f_i Hfi]; [lia|].
    destruct (lookup_lt_is_Some_2 f (a + 1)) as [f_p Hfp]; [lia|].
    destruct (lookup_lt_is_Some_2 us (a - 1)) as [u_m Hum]; [lia|].
    destruct (lookup_lt_is_Some_2 us a) as [u_i Hui]; [lia|].
    set (q := ((2 * (1 - (5 * pow h 2 / 12) * f_i) * u_i
                - (1 + (pow h 2 / 12) * f_m) * u_m)
               / (1 + (pow h 2 / 12) * f_p))%float).
    destruct (IH (S a) (<[u := <[a + 1 := q]> us]> A)
                 (D ++ step_divisors pow h f a) (<[a + 1 := q]> us))
      as (us' & Hrun & Hlen' & Hsame & Hrel).
    + apply lookup_insert_eq.
    + rewrite length_insert. exact Hlen.
    + lia.
    + right. rewrite length_insert. lia.
    + rewrite length_insert in Hlen'.
      exists us'. cbn [seq for_each].
      erewrite bind_ok
        by (eapply numerov_step_ok; [exact Hu | exact Hfm | exact Hfi
                                    | exact Hfp | exact Hum | exact Hui | lia]).
      fold q. rewrite Hrun, insert_insert_eq.
      unfold loop_divisors. cbn [seq flat_map]. rewrite <- app_assoc.
      split; [reflexivity|]. split; [exact Hlen'|]. split.
      * intros j Hj. rewrite Hsame by lia.
        apply list_lookup_insert_ne. lia.
      * intros i Hi. destruct (decide (i = a)) as [->|Hne].
        -- exists f_m, f_i, f_p, u_m, u_i.
           repeat split; try assumption.
           ++ rewrite Hsame by lia. rewrite list_lookup_insert_ne by lia. exact Hum.
           ++ rewrite Hsame by lia. rewrite list_lookup_insert_ne by lia. exact Hui.
           ++ rewrite Hsame by lia. apply list_lookup_insert_eq. lia.
        -- apply Hrel. lia.
Qed.

Lemma fresh_array_ne (A : gmap loc (list float)) r rs :
  A !! r = Some rs -> r <> fresh (dom A).
Proof.
  intros Hr ->. apply (is_fresh (dom A)). apply elem_of_dom. eauto.
Qed.

(** The part of a call before [f] is computed: [u] is allocated and seeded,
    and the grid is only read. *)
Lemma numerov_solve_seeded V r k l rs r_0 r_1 A D :
  A !! r = Some rs -> rs !! 0 = Some r_0 -> rs !! 1 = Some r_1 ->
  numerov_solve pow V r k l (State A D)
  = bind (numerov_f pow V r k l)
      (fun f =>
         bind (for_each (seq 1 (length rs - 2))
                 (numerov_step pow (r_1 - r_0) f (fresh (dom A))))
           (fun _ => ret (r, fresh (dom A))))
      (State (<[fresh (dom A) :=
                <[1 := pow r_1 (l + 1)]>
                  (<[0 := 0%float]> (replicate (length rs) 0%float))]> A) D).
Proof.
  intros Hr H0 H1.
  assert (Hlen : 2 <= length rs) by (apply lookup_lt_Some in H1; lia).
  assert (Hru : fresh (dom A) <> r)
    by (intros E; apply (fresh_array_ne A r rs Hr); symmetry; exact E).
  unfold numerov_solve.
  erewrite bind_ok by (eapply getitem_ok; [exact Hr | exact H1]).
  erewrite bind_ok by (eapply getitem_ok; [exact Hr | exact H0]).
  erewrite bind_ok by (eapply shape0_ok; exact Hr).
  unfold bind at 1, np_zeros at 1. cbn [arrays divisors].
  erewrite bind_ok
    by (eapply setitem_ok;
        [apply lookup_insert_eq | rewrite length_replicate; lia]).
  cbn [arrays divisors]. rewrite insert_insert_eq.
  erewrite bind_ok
    by (eapply getitem_ok;
        [cbn [arrays]; rewrite lookup_insert_ne by exact Hru; exact Hr
        | exact H1]).
  erewrite bind_ok
    by (eapply setitem_ok;
        [apply lookup_insert_eq
        | rewrite length_insert, length_replicate; lia]).
  cbn [arrays divisors]. rewrite insert_insert_eq. reflexivity.
Qed.

(** A call on a grid of at least two points whose [l * (l + 1)] converts
    and whose [k**2] does not overflow. *)
Lemma numerov_solve_ok V r k l rs c k2 A D :
  A !! r = Some rs -> 2 <= length rs ->
  int_to_float (l * (l + 1)) = Ok c -> float_pow pow k 2 = Ok k2 ->
  exists r_0 r_1 us,
    rs !! 0 = Some r_0 /\ rs !! 1 = Some r_1 /\
    numerov_solve pow V r k l (State A D)
    = Ok ((r, fresh (dom A)),
          State (<[fresh (dom A) := us]> A)
                (D ++ map (fun x => (x * x)%float) rs
                   ++ loop_divisors pow (r_1 - r_0) (map (f_at V k2 l) rs)
                        1 (length rs - 2)))
    /\ length us = length rs
    /\ us !! 0 = Some 0%float
    /\ us !! 1 = Some (pow r_1 (l + 1))
    /\ forall i, 1 <= i <= length rs - 2 ->
         numerov_relation pow (r_1 - r_0) (map (f_at V k2 l) rs) us i.
Proof.
  intros Hr Hlen Hc Hk.
  destruct (lookup_lt_is_Some_2 rs 0) as [r_0 H0]; [lia|].
  destruct (lookup_lt_is_Some_2 rs 1) as [r_1 H1]; [lia|].
  exists r_0, r_1.
  set (u := fresh (dom A)).
  assert (Hru : u <> r)
    by (intros E; apply (fresh_array_ne A r rs Hr); symmetry; exact E).
  set (us1 := <[1 := pow r_1 (l + 1)]>
                (<[0 := 0%float]> (replicate (length rs) 0%float))).
  assert (Hlen1 : length us1 = length rs)
    by (unfold us1; rewrite !length_insert, length_replicate; reflexivity).
  destruct (numerov_loop_ok (r_1 - r_0) (map (f_at V k2 l) rs) u
              (length rs - 2) 1 (<[u := us1]> A)
              (D ++ map (fun x => (x * x)%float) rs) us1)
    as (us & Hrun & Hlen' & Hsame & Hrel).
  { apply lookup_insert_eq. }
  { rewrite length_map, Hlen1. reflexivity. }
  { lia. }
  { rewrite Hlen1. lia. }
  exists us. split; [exact H0|]. split; [exact H1|].
  split; [|split; [|split; [|split]]].
  - rewrite (numerov_solve_seeded V r k l rs r_0 r_1 A D Hr H0 H1).
    fold u us1.
    erewrite bind_ok
      by (eapply numerov_f_ok;
          [rewrite lookup_insert_ne by exact Hru; exact Hr | exact Hc
          | exact Hk]).
    erewrite bind_ok by exact Hrun.
    unfold ret. rewrite insert_insert_eq, <- app_assoc. reflexivity.
  - rewrite Hlen'. exact Hlen1.
  - rewrite Hsame by lia. unfold us1.
    rewrite list_lookup_insert_ne by lia.
    apply list_lookup_insert_eq. rewrite length_replicate. lia.
  - rewrite Hsame by lia. unfold us1.
    apply list_lookup_insert_eq. rewrite length_insert, length_replicate. lia.
  - intros i Hi. apply Hrel. lia.
Qed.

(** A grid of fewer than two points: [r[1]] is out of range. *)
Lemma numerov_solve_short V r k l rs A D :
  A !! r = Some rs -> length rs < 2 ->
  numerov_solve pow V r k l (State A D) = Raise IndexError.
Proof.
  intros Hr Hlen. unfold numerov_solve.
  apply bind_raise. eapply getitem_raise; [exact Hr | lia].
Qed.

(** [k**2] raises: the call raises the same exception. *)
Lemma numerov_solve_pow_raise V r k l rs c e A D :
  A !! r = Some rs -> 2 <= length rs ->
  int_to_float (l * (l + 1)) = Ok c -> float_pow pow k 2 = Raise e ->
  numerov_solve pow V r k l (State A D) = Raise e.
Proof.
  intros Hr Hlen Hc Hk.
  destruct (lookup_lt_is_Some_2 rs 0) as [r_0 H0]; [lia|].
  destruct (lookup_lt_is_Some_2 rs 1) as [r_1 H1]; [lia|].
  rewrite (numerov_solve_seeded V r k l rs r_0 r_1 A D Hr H0 H1).
  apply bind_raise. eapply numerov_f_raise; [|exact Hc | exact Hk].
  rewrite lookup_insert_ne; [exact Hr|].
  intros E. apply (fresh_array_ne A r rs Hr). symmetry. exact E.
Qed.

(** The conversion of [l * (l + 1)] raises: the call raises the same
    exception, whatever [k] is. *)
Lemma numerov_solve_int_raise V r k l rs e A D :
  A !! r = Some rs -> 2 <= length rs ->
  int_to_float (l * (l + 1)) = Raise e ->
  numerov_solve pow V r k l (State A D) = Raise e.
Proof.
  intros Hr Hlen Hc.
  destruct (lookup_lt_is_Some_2 rs 0) as [r_0 H0]; [lia|].
  destruct (lookup_lt_is_Some_2 rs 1) as [r_1 H1]; [lia|].
  rewrite (numerov_solve_seeded V r k l rs r_0 r_1 A D Hr H0 H1).
  apply bind_raise. eapply numerov_f_int_raise; [|exact Hc].
  rewrite lookup_insert_ne; [exact Hr|].
  intros E. apply (fresh_array_ne A r rs Hr). symmetry. exact E.
Qed.

(** [k**2] can only fail by overflow. *)
Lemma float_pow_2_raise k e : float_pow pow k 2 = Raise e -> e = OverflowError.
Proof.
  unfold float_pow. cbn [Z.eqb Z.odd Z.ltb Z.compare].
  repeat match goal with
         | |- context [if ?b then _ else _] => destruct b
         end; intros H; try discriminate H.
  injection H as <-. reflexivity.
Qed.

Lemma numerov_f_inv V r k l rs f A D s_f :
  A !! r = Some rs -> numerov_f pow V r k l (State A D) = Ok (f, s_f) ->
  exists c k2,
    int_to_float (l * (l + 1)) = Ok c /\ float_pow pow k 2 = Ok k2
    /\ f = map (f_at V k2 l) rs.
Proof.
  intros Hr Hf. destruct (int_to_float (l * (l + 1))) as [c|e] eqn:Hc.
  2:{ rewrite (numerov_f_int_raise V r k l rs e A D Hr Hc) in Hf.
      discriminate Hf. }
  destruct (float_pow pow k 2) as [k2|e] eqn:Hk.
  - exists c, k2. split; [reflexivity|]. split; [reflexivity|].
    rewrite (numerov_f_ok V r k l rs c k2 A D Hr Hc Hk) in Hf.
    injection Hf as <- _. reflexivity.
  - rewrite (numerov_f_raise V r k l rs c e A D Hr Hc Hk) in Hf.
    discriminate Hf.
Qed.

(** The seed values and the three-point relation determine the array. *)
Lemma numerov_relation_unique h f (us us' : list float) :
  length us = length us' ->
  us !! 0 = us' !! 0 -> us !! 1 = us' !! 1 ->
  (forall i, 1 <= i <= length us - 2 -> numerov_relation pow h f us i) ->
  (forall i, 1 <= i <= length us - 2 -> numerov_relation pow h f us' i) ->
  us = us'.
Proof.
  intros Hlen H0 H1 Hrel Hrel'.
  assert (Hall : forall m j, j <= m -> us !! j = us' !! j).
  { induction m as [|m IH]; intros j Hj.
    - replace j with 0 by lia. exact H0.
    - destruct (decide (j <= m)) as [Hle|Hgt]; [apply IH; exact Hle|].
      replace j with (S m) by lia.
      destruct m as [|m]; [exact H1|].
      destruct (decide (S (S m) < length us)) as [Hin|Hout].
      + destruct (Hrel (S m) ltac:(lia))
          as (f_m & f_i & f_p & u_m & u_i & Hfm & Hfi & Hfp & Hum & Hui & Hu).
        destruct (Hrel' (S m) ltac:(lia))
          as (g_m & g_i & g_p & v_m & v_i & Hgm & Hgi & Hgp & Hvm & Hvi & Hv).
        rewrite (IH (S m - 1)) in Hum by lia. rewrite (IH (S m)) in Hui by lia.
        replace (S m + 1) with (S (S m)) in * by lia.
        rewrite Hu, Hv. congruence.
      + rewrite !lookup_ge_None_2 by lia. reflexivity. }
  apply list_eq. intros j. apply (Hall j). lia.
Qed.

End Specification.

(** ** Facts about binary64 arithmetic

    Read off the IEEE-754 specification of the primitive operations. *)

Section FloatFacts.
Local Open Scope float_scope.

Lemma Prim2SF_nan_eq x : Prim2SF x = S754_nan -> x = nan.
Proof. intros H. apply Prim2SF_inj. rewrite H. reflexivity. Qed.

Lemma SFcompare_refl_finite s m e :
  SFcompare (S754_finite s m e) (S754_finite s m e) = Some Eq.
Proof.
  simpl. rewrite Z.compare_refl.
  change (Pos.compare_cont Eq m m) with (Pos.compare m m).
  rewrite Pos.compare_refl. destruct s; reflexivity.
Qed.

Lemma is_nan_spec x :
  is_nan x = match Prim2SF x with S754_nan => true | _ => false end.
Proof.
  unfold is_nan. rewrite FloatAxioms.eqb_spec. unfold SFeqb.
  destruct (Prim2SF x) as [s|s| |s m e].
  - reflexivity.
  - destruct s; reflexivity.
  - reflexivity.
  - rewrite SFcompare_refl_finite. reflexivity.
Qed.

Lemma is_infinity_spec x :
  is_infinity x = match Prim2SF x with S754_infinity _ => true | _ => false end.
Proof.
  unfold is_infinity. rewrite FloatAxioms.eqb_spec, abs_spec. unfold SFeqb.
  change (Prim2SF infinity) with (S754_infinity false).
  destruct (Prim2SF x) as [s|s| |s m e]; reflexivity.
Qed.

Lemma eqb_zero_spec x :
  (x =? 0) = match Prim2SF x with S754_zero _ => true | _ => false end.
Proof.
  rewrite FloatAxioms.eqb_spec. unfold SFeqb.
  change (Prim2SF 0) with (S754_zero false).
  destruct (Prim2SF x) as [s|s| |s m e]; try reflexivity; destruct s; reflexivity.
Qed.

Lemma ltb_zero_spec x :
  (x <? 0) = match Prim2SF x with
             | S754_infinity s | S754_finite s _ _ => s
             | _ => false
             end.
Proof.
  rewrite ltb_spec. unfold SFltb.
  change (Prim2SF 0) with (S754_zero false).
  destruct (Prim2SF x) as [s|s| |s m e]; try reflexivity; destruct s; reflexivity.
Qed.

Lemma opp_involutive x : - - x = x.
Proof.
  apply Prim2SF_inj. rewrite !opp_spec.
  destruct (Prim2SF x) as [s|s| |s m e]; simpl; rewrite ?negb_involutive; reflexivity.
Qed.

Lemma abs_opp x : abs (- x) = abs x.
Proof.
  apply Prim2SF_inj. rewrite !abs_spec, opp_spec.
  destruct (Prim2SF x); reflexivity.
Qed.

Lemma add_nonfinite_r x y : nonfinite y -> nonfinite (x + y).
Proof.
  unfold nonfinite. rewrite add_spec. unfold SF64add, SFadd.
  destruct (Prim2SF y) as [s|s| |s m e]; try contradiction; intros _;
    destruct (Prim2SF x) as [s'|s'| |s' m' e']; try exact I;
    destruct s', s; exact I.
Qed.

Lemma sub_nonfinite_r x y : nonfinite y -> nonfinite (x - y).
Proof.
  unfold nonfinite. rewrite sub_spec. unfold SF64sub, SFsub.
  destruct (Prim2SF y) as [s|s| |s m e]; try contradiction; intros _;
    destruct (Prim2SF x) as [s'|s'| |s' m' e']; try exact I;
    destruct s', s; exact I.
Qed.

Lemma mul_nonfinite_r x y : nonfinite y -> nonfinite (x * y).
Proof.
  unfold nonfinite. rewrite mul_spec. unfold SF64mul, SFmul.
  destruct (Prim2SF y) as [s|s| |s m e]; try contradiction; intros _;
    destruct (Prim2SF x) as [s'|s'| |s' m' e']; exact I.
Qed.

Lemma mul_nonfinite_zero x : nonfinite x -> x * 0 = nan.
Proof.
  unfold nonfinite. intros H. apply Prim2SF_nan_eq.
  rewrite mul_spec. unfold SF64mul, SFmul.
  change (Prim2SF 0) with (S754_zero false).
  destruct (Prim2SF x) as [s|s| |s m e]; try contradiction; reflexivity.
Qed.

Lemma sub_nan_r x : x - nan = nan.
Proof.
  apply Prim2SF_nan_eq. rewrite sub_spec. unfold SF64sub, SFsub.
  change (Prim2SF nan) with S754_nan.
  destruct (Prim2SF x); reflexivity.
Qed.

Lemma div_nan_l x : nan / x = nan.
Proof.
  apply Prim2SF_nan_eq. rewrite div_spec. unfold SF64div, SFdiv.
  change (Prim2SF nan) with S754_nan. reflexivity.
Qed.

Lemma two_div_square_zero z : (z =? 0) = true -> 2 / (z * z) = infinity.
Proof.
  rewrite eqb_zero_spec. intros H. apply Prim2SF_inj.
  rewrite div_spec, mul_spec. unfold SF64div, SF64mul.
  destruct (Prim2SF z) as [s|s| |s m e]; try discriminate.
  destruct s; reflexivity.
Qed.

Variable pow : float -> Z -> float.

(** CPython's [x ** 2] only looks at the magnitude of [x]. *)
Lemma float_pow_2_opp k : float_pow pow (- k) 2 = float_pow pow k 2.
Proof.
  unfold float_pow. cbn [Z.eqb Z.odd Z.ltb Z.compare].
  rewrite !andb_false_r.
  rewrite !is_nan_spec, !is_infinity_spec, !eqb_zero_spec, !ltb_zero_spec.
  rewrite opp_spec.
  destruct (Prim2SF k) as [s|s| |s m e] eqn:E; cbn [SFopp].
  - reflexivity.
  - rewrite abs_opp. reflexivity.
  - apply Prim2SF_nan_eq in E. subst k. reflexivity.
  - destruct s; cbn [negb]; rewrite ?opp_involutive; reflexivity.
Qed.

End FloatFacts.

(** ** The properties of [numerov_solve] *)

Section Properties.

Variable pow : float -> Z -> float.

(** C1 (amended). On every grid of at least two points, for every potential
    and every [l] whose product [l * (l + 1)] converts to float64, the call
    computes the effective potential [V_eff[i] = V(r[i]) + l*(l+1) / r[i]^2]
    at every grid point and then the driver [f[i] = k**2 - V_eff[i]] at every
    grid point, where [k] is the third argument: the code squares it itself
    ([k**2] not overflowing).  The call is lines 93 and 96 run in the state
    [s0] that the seeding of [u] leaves, followed by the loop over the [f]
    they give. *)
Theorem driver_is_k_squared_minus_V_eff (V : float -> float) (r : loc)
    (k : float) (l : Z) (s : state) (rs : list float) (c k2 : float) :
  arrays s !! r = Some rs -> 2 <= length rs ->
  int_to_float (l * (l + 1)) = Ok c -> float_pow pow k 2 = Ok k2 ->
  exists r_0 r_1 u s0 Ve s1 f s2,
    rs !! 0 = Some r_0 /\ rs !! 1 = Some r_1
    /\ arrays s0 !! r = Some rs
    /\ numerov_solve pow V r k l s
       = bind (numerov_f pow V r k l)
           (fun f' =>
              bind (for_each (seq 1 (length rs - 2))
                      (numerov_step pow (r_1 - r_0) f' u))
                (fun _ => ret (r, u))) s0
    /\ V_eff V r l s0 = Ok (Ve, s1)
    /\ numerov_f pow V r k l s0 = Ok (f, s2)
    /\ length Ve = length rs /\ length f = length rs
    /\ forall i x, rs !! i = Some x ->
         exists v,
           Ve !! i = Some v
           /\ v = (V x + c / (x * x))%float
           /\ f !! i = Some (k2 - v)%float.
Proof.
  destruct s as [A D]. cbn [arrays]. intros Hr Hlen Hc Hk.
  destruct (lookup_lt_is_Some_2 rs 0) as [r_0 H0]; [lia|].
  destruct (lookup_lt_is_Some_2 rs 1) as [r_1 H1]; [lia|].
  assert (Hru : fresh (dom A) <> r)
    by (intros E; apply (fresh_array_ne A r rs Hr); symmetry; exact E).
  eexists r_0, r_1, _, (State _ _), _, _, _, _.
  split; [exact H0|]. split; [exact H1|].
  split; [|split; [apply (numerov_solve_seeded pow V r k l rs r_0 r_1 A D Hr H0 H1)|]].
  { cbn [arrays]. rewrite lookup_insert_ne by exact Hru. exact Hr. }
  split.
  { eapply V_eff_ok; [|exact Hc]. rewrite lookup_insert_ne by exact Hru. exact Hr. }
  split.
  { eapply numerov_f_ok; [|exact Hc | exact Hk].
    rewrite lookup_insert_ne by exact Hru. exact Hr. }
  rewrite !length_map. split; [reflexivity|]. split; [reflexivity|].
  intros i x Hx. eexists. rewrite !list_lookup_fmap, Hx.
  split; [reflexivity|]. split; [|reflexivity].
  unfold V_eff_at. rewrite <- (int_to_float_ok _ _ Hc). reflexivity.
Qed.

(** C2. On a valid input (a grid of N >= 3 points, [l * (l + 1)] convertible
    to float64 and [k**2] representable), with [h = r[1] - r[0]] and [f] the
    driver that [numerov_f] computes from the same inputs, the call returns
    and the returned wavefunction satisfies, at every interior index
    i = 1 .. N-2,
    [u[i+1] = (2*(1 - 5h^2/12 * f[i]) * u[i] - (1 + h^2/12 * f[i-1]) * u[i-1])
              / (1 + h^2/12 * f[i+1])]. *)
Theorem numerov_solve_recurrence (V : float -> float) (r : loc) (k : float)
    (l : Z) (s : state) (rs : list float) (c k2 : float) :
  arrays s !! r = Some rs -> 3 <= length rs ->
  int_to_float (l * (l + 1)) = Ok c -> float_pow pow k 2 = Ok k2 ->
  exists u s' us f s_f r_0 r_1,
    numerov_solve pow V r k l s = Ok ((r, u), s')
    /\ arrays s' !! u = Some us
    /\ numerov_f pow V r k l s = Ok (f, s_f)
    /\ rs !! 0 = Some r_0 /\ rs !! 1 = Some r_1
    /\ forall i, 1 <= i <= length rs - 2 ->
         exists f_m f_i f_p u_m u_i,
           f !! (i - 1) = Some f_m /\ f !! i = Some f_i
           /\ f !! (i + 1) = Some f_p
           /\ us !! (i - 1) = Some u_m /\ us !! i = Some u_i
           /\ us !! (i + 1) =
                Some ((2 * (1 - (5 * pow (r_1 - r_0) 2 / 12) * f_i) * u_i
                       - (1 + (pow (r_1 - r_0) 2 / 12) * f_m) * u_m)
                      / (1 + (pow (r_1 - r_0) 2 / 12) * f_p))%float.
Proof.
  destruct s as [A D]. cbn [arrays]. intros Hr Hlen Hc Hk.
  destruct (numerov_solve_ok pow V r k l rs c k2 A D Hr ltac:(lia) Hc Hk)
    as (r_0 & r_1 & us & H0 & H1 & Hrun & _ & _ & _ & Hrel).
  eexists _, _, us, _, _, r_0, r_1. split; [exact Hrun|]. cbn [arrays].
  split; [apply lookup_insert_eq|].
  split; [eapply numerov_f_ok; [exact Hr | exact Hc | exact Hk]|].
  split; [exact H0|]. split; [exact H1|].
  intros i Hi. exact (Hrel i Hi).
Qed.

(** C3. On a valid input (a grid of N >= 3 points, [l * (l + 1)] convertible
    to float64 and [k**2] representable) the call returns and the returned
    wavefunction has [u[0] = 0] and [u[1] = r[1] ** (l + 1)], exactly. *)
Theorem numerov_solve_seed (V : float -> float) (r : loc) (k : float) (l : Z)
    (s : state) (rs : list float) (c k2 : float) :
  arrays s !! r = Some rs -> 3 <= length rs ->
  int_to_float (l * (l + 1)) = Ok c -> float_pow pow k 2 = Ok k2 ->
  exists u s' us r_1,
    numerov_solve pow V r k l s = Ok ((r, u), s')
    /\ arrays s' !! u = Some us
    /\ rs !! 1 = Some r_1
    /\ us !! 0 = Some 0%float
    /\ us !! 1 = Some (pow r_1 (l + 1)).
Proof.
  destruct s as [A D]. cbn [arrays]. intros Hr Hlen Hc Hk.
  destruct (numerov_solve_ok pow V r k l rs c k2 A D Hr ltac:(lia) Hc Hk)
    as (r_0 & r_1 & us & _ & H1 & Hrun & _ & Hu0 & Hu1 & _).
  eexists _, _, us, r_1. split; [exact Hrun|]. cbn [arrays].
  split; [apply lookup_insert_eq|]. auto.
Qed.

(** C4 (amended). With [r[0] == 0] and [l == 1] the call does not fail: on a
    grid of N >= 3 points (and with [k**2] representable) the division by zero
    in the centrifugal term goes through, and the wavefunction is returned with
    [u[2]] equal to NaN. *)
Theorem zero_origin_yields_nan (V : float -> float) (r : loc) (k : float)
    (s : state) (rs : list float) (r_0 k2 : float) :
  arrays s !! r = Some rs -> 3 <= length rs ->
  rs !! 0 = Some r_0 -> (r_0 =? 0)%float = true ->
  float_pow pow k 2 = Ok k2 ->
  exists u s' us,
    numerov_solve pow V r k 1 s = Ok ((r, u), s')
    /\ arrays s' !! u = Some us
    /\ us !! 2 = Some nan.
Proof.
  destruct s as [A D]. cbn [arrays]. intros Hr Hlen H0 Hz Hk.
  destruct (numerov_solve_ok pow V r k 1 rs 2%float k2 A D Hr ltac:(lia)
              eq_refl Hk)
    as (r_0' & r_1 & us & H0' & H1 & Hrun & _ & Hu0 & _ & Hrel).
  rewrite H0 in H0'. injection H0' as <-.
  eexists _, _, us. split; [exact Hrun|]. cbn [arrays].
  split; [apply lookup_insert_eq|].
  destruct (Hrel 1 ltac:(lia))
    as (f_m & f_i & f_p & u_m & u_i & Hfm & _ & _ & Hum & _ & Hu).
  cbn [Nat.sub Nat.add] in Hfm, Hum, Hu.
  rewrite Hu0 in Hum. injection Hum as <-.
  rewrite list_lookup_fmap, H0 in Hfm. injection Hfm as <-.
  rewrite Hu. f_equal.
  assert (Hnf : nonfinite (f_at V k2 1 r_0)).
  { unfold f_at, V_eff_at. apply sub_nonfinite_r, add_nonfinite_r.
    change (float_of_int (1 * (1 + 1))) with 2%float.
    rewrite two_div_square_zero by exact Hz. exact I. }
  rewrite (mul_nonfinite_zero _ (add_nonfinite_r _ _ (mul_nonfinite_r _ _ Hnf))).
  rewrite sub_nan_r. apply div_nan_l.
Qed.

(** C5 (amended). On a valid input (a grid of N >= 3 points, [l * (l + 1)]
    convertible to float64 and [k**2] representable) the output is not the
    wavefunction alone but the pair [(r, u)]: the input grid itself, with its
    contents unchanged, and the wavefunction [u], an array that did not exist
    before the call and holds exactly N floats. *)
Theorem numerov_solve_length (V : float -> float) (r : loc) (k : float) (l : Z)
    (s : state) (rs : list float) (c k2 : float) :
  arrays s !! r = Some rs -> 3 <= length rs ->
  int_to_float (l * (l + 1)) = Ok c -> float_pow pow k 2 = Ok k2 ->
  exists u s' us,
    numerov_solve pow V r k l s = Ok ((r, u), s')
    /\ arrays s !! u = None
    /\ arrays s' !! r = Some rs
    /\ arrays s' !! u = Some us
    /\ length us = length rs.
Proof.
  destruct s as [A D]. cbn [arrays]. intros Hr Hlen Hc Hk.
  destruct (numerov_solve_ok pow V r k l rs c k2 A D Hr ltac:(lia) Hc Hk)
    as (r_0 & r_1 & us & _ & _ & Hrun & Hus & _).
  eexists _, _, us. split; [exact Hrun|]. cbn [arrays].
  split; [apply not_elem_of_dom, is_fresh|].
  split; [|split; [apply lookup_insert_eq | exact Hus]].
  rewrite lookup_insert_ne; [exact Hr|].
  intros E. eapply fresh_array_ne; [exact Hr | symmetry; exact E].
Qed.

(** C6 (amended). [numerov_solve] validates nothing.  Its only failures are
    an [IndexError] on a grid of fewer than two points and, on a longer grid,
    an [OverflowError] when [l * (l + 1)] is too large to convert to float64
    or when [k**2] overflows; on every other input, whatever the spacing or
    the order of the grid and whatever values the potential takes, it returns
    an array of N floats. *)
Theorem numerov_solve_failures (V : float -> float) (r : loc) (k : float)
    (l : Z) (s : state) (rs : list float) :
  arrays s !! r = Some rs ->
  (length rs < 2 -> numerov_solve pow V r k l s = Raise IndexError)
  /\ (2 <= length rs ->
      forall e, int_to_float (l * (l + 1)) = Raise e ->
        e = OverflowError
        /\ numerov_solve pow V r k l s = Raise OverflowError)
  /\ (2 <= length rs ->
      forall c e, int_to_float (l * (l + 1)) = Ok c ->
        float_pow pow k 2 = Raise e ->
        e = OverflowError
        /\ numerov_solve pow V r k l s = Raise OverflowError)
  /\ (2 <= length rs ->
      forall c k2, int_to_float (l * (l + 1)) = Ok c ->
        float_pow pow k 2 = Ok k2 ->
        exists u s' us,
          numerov_solve pow V r k l s = Ok ((r, u), s')
          /\ arrays s' !! u = Some us
          /\ length us = length rs).
Proof.
  destruct s as [A D]. cbn [arrays]. intros Hr.
  split; [|split; [|split]].
  - intros Hlen. apply (numerov_solve_short pow V r k l rs A D Hr Hlen).
  - intros Hlen e Hc. pose proof (int_to_float_raise _ e Hc) as ->.
    split; [reflexivity|].
    apply (numerov_solve_int_raise pow V r k l rs _ A D Hr Hlen Hc).
  - intros Hlen c e Hc Hk. pose proof (float_pow_2_raise pow k e Hk) as ->.
    split; [reflexivity|].
    apply (numerov_solve_pow_raise pow V r k l rs c _ A D Hr Hlen Hc Hk).
  - intros Hlen c k2 Hc Hk.
    destruct (numerov_solve_ok pow V r k l rs c k2 A D Hr Hlen Hc Hk)
      as (r_0 & r_1 & us & _ & _ & Hrun & Hus & _).
    eexists _, _, us. split; [exact Hrun|]. cbn [arrays].
    split; [apply lookup_insert_eq | exact Hus].
Qed.

(** C7. [numerov_solve] is a pure, deterministic mapping.  Two calls on the
    same grid values, made in any two interpreter states (for instance one
    after the other), return the same grid and the same wavefunction values or
    raise the same exception; and a call leaves every array that existed
    before it, the grid included, as it was. *)
Theorem numerov_solve_pure (V : float -> float) (k : float) (l : Z)
    (r1 r2 : loc) (s1 s2 : state) (rs : list float) :
  arrays s1 !! r1 = Some rs -> arrays s2 !! r2 = Some rs ->
  returned_values (numerov_solve pow V r1 k l s1)
  = returned_values (numerov_solve pow V r2 k l s2)
  /\ forall out s1',
       numerov_solve pow V r1 k l s1 = Ok (out, s1') ->
       forall a xs, arrays s1 !! a = Some xs -> arrays s1' !! a = Some xs.
Proof.
  destruct s1 as [A1 D1], s2 as [A2 D2]. cbn [arrays]. intros Hr1 Hr2.
  destruct (decide (length rs < 2)) as [Hshort|Hlong].
  { rewrite (numerov_solve_short pow V r1 k l rs A1 D1 Hr1 Hshort).
    rewrite (numerov_solve_short pow V r2 k l rs A2 D2 Hr2 Hshort).
    split; [reflexivity|]. intros out s1' H. discriminate H. }
  assert (Hlen : 2 <= length rs) by lia.
  destruct (int_to_float (l * (l + 1))) as [c|e] eqn:Hc.
  2:{ rewrite (numerov_solve_int_raise pow V r1 k l rs e A1 D1 Hr1 Hlen Hc).
      rewrite (numerov_solve_int_raise pow V r2 k l rs e A2 D2 Hr2 Hlen Hc).
      split; [reflexivity|]. intros out s1' H. discriminate H. }
  destruct (float_pow pow k 2) as [k2|e] eqn:Hk.
  - destruct (numerov_solve_ok pow V r1 k l rs c k2 A1 D1 Hr1 Hlen Hc Hk)
      as (r_0 & r_1 & us & H0 & H1 & Hrun & Hus & Hu0 & Hu1 & Hrel).
    destruct (numerov_solve_ok pow V r2 k l rs c k2 A2 D2 Hr2 Hlen Hc Hk)
      as (r_0' & r_1' & us' & H0' & H1' & Hrun' & Hus' & Hu0' & Hu1' & Hrel').
    rewrite H0 in H0'. injection H0' as <-.
    rewrite H1 in H1'. injection H1' as <-.
    assert (Heq : us = us').
    { apply (numerov_relation_unique pow (r_1 - r_0)%float (map (f_at V k2 l) rs)).
      - congruence.
      - congruence.
      - congruence.
      - intros i Hi. apply Hrel. lia.
      - intros i Hi. apply Hrel'. lia. }
    subst us'. rewrite Hrun, Hrun'. cbn [returned_values arrays]. split.
    + rewrite !lookup_insert_eq.
      rewrite (lookup_insert_ne A1)
        by (intros E; apply (fresh_array_ne A1 r1 rs Hr1); symmetry; exact E).
      rewrite (lookup_insert_ne A2)
        by (intros E; apply (fresh_array_ne A2 r2 rs Hr2); symmetry; exact E).
      rewrite Hr1, Hr2. reflexivity.
    + intros out s1' H. injection H as _ <-. cbn [arrays].
      intros a xs Ha. rewrite lookup_insert_ne; [exact Ha|].
      intros E. eapply fresh_array_ne; [exact Ha | symmetry; exact E].
  - rewrite (numerov_solve_pow_raise pow V r1 k l rs c e A1 D1 Hr1 Hlen Hc Hk).
    rewrite (numerov_solve_pow_raise pow V r2 k l rs c e A2 D2 Hr2 Hlen Hc Hk).
    split; [reflexivity|]. intros out s1' H. discriminate H.
Qed.

(** C8 (amended). If every grid point satisfies [r[i] > 0] and has a square
    [r[i] * r[i]] that is not zero in binary64, and the denominator
    [1 + h^2/12 * f[i+1]] is not zero at any interior step i = 1 .. N-2, then
    the call returns and every division it performed, in the centrifugal term
    and in the Numerov update, had a nonzero divisor. *)
Theorem divisors_nonzero (V : float -> float) (r : loc) (k : float) (l : Z)
    (s : state) (rs f : list float) (s_f : state) (r_0 r_1 : float) :
  arrays s !! r = Some rs ->
  rs !! 0 = Some r_0 -> rs !! 1 = Some r_1 ->
  numerov_f pow V r k l s = Ok (f, s_f) ->
  Forall (fun x => (0 <? x)%float = true /\ (x * x =? 0)%float = false) rs ->
  (forall i f_p, 1 <= i <= length rs - 2 -> f !! (i + 1) = Some f_p ->
     (1 + (pow (r_1 - r_0) 2 / 12) * f_p =? 0)%float = false) ->
  exists out s' D,
    numerov_solve pow V r k l s = Ok (out, s')
    /\ divisors s' = divisors s ++ D
    /\ Forall (fun d => (d =? 0)%float = false) D.
Proof.
  destruct s as [A D0]. cbn [arrays divisors]. intros Hr H0 H1 Hf Hpos Hden.
  destruct (numerov_f_inv pow V r k l rs f A D0 s_f Hr Hf)
    as (c & k2 & Hc & Hk & ->).
  assert (Hlen : 2 <= length rs).
  { apply lookup_lt_Some in H1. lia. }
  destruct (numerov_solve_ok pow V r k l rs c k2 A D0 Hr Hlen Hc Hk)
    as (r_0' & r_1' & us & H0' & H1' & Hrun & _).
  rewrite H0 in H0'. injection H0' as <-.
  rewrite H1 in H1'. injection H1' as <-.
  eexists _, _, _. split; [exact Hrun|]. cbn [divisors].
  split; [reflexivity|].
  apply Forall_app. split.
  - apply Forall_fmap. eapply Forall_impl; [exact Hpos|].
    intros x [_ Hx]. exact Hx.
  - unfold loop_divisors. apply Forall_flat_map.
    apply Forall_forall. intros i Hi.
    apply elem_of_seq in Hi.
    unfold step_divisors.
    destruct (map (f_at V k2 l) rs !! (i + 1)) as [f_p|] eqn:Hfp;
      [|constructor].
    repeat (constructor; [reflexivity|]).
    constructor; [|constructor].
    apply (Hden i f_p); [lia | exact Hfp].
Qed.

(** C10. The result is an even function of the third argument: the call with
    [-k] is the same computation as the call with [k], for every potential,
    grid, [k], [l] and interpreter state, because [k] is only used in
    [k**2]. *)
Theorem numerov_solve_even (V : float -> float) (r : loc) (k : float) (l : Z)
    (s : state) :
  numerov_solve pow V r (- k)%float l s = numerov_solve pow V r k l s.
Proof.
  unfold numerov_solve, numerov_f. rewrite float_pow_2_opp. reflexivity.
Qed.

End Properties.

(** ** Concrete runs

    The model evaluated on small inputs: the inputs at which claims as stated
    fail, and inputs at which the hypotheses of the theorems above hold. *)

Example well_inside : well 1 = (-10)%float.
Proof. reflexivity. Qed.

Example well_outside : well 4 = 0%float.
Proof. reflexivity. Qed.

Example one_point_grid_raises :
  numerov_solve powi well 1%positive 1.5%float 0 (grid_state [1]%float)
  = Raise IndexError.
Proof. reflexivity. Qed.

(** Squares of positive floats underflow to zero below [2^-537]. *)
Example square_survives : (0x1p-537 * 0x1p-537 =? 0)%float = false.
Proof. reflexivity. Qed.

Example square_underflows : (0x1p-538 * 0x1p-538 =? 0)%float = true.
Proof. reflexivity. Qed.

Example overflowing_k_raises :
  numerov_solve powi well 1%positive 0x1p600%float 0 (grid_state demo_grid)
  = Raise OverflowError.
Proof. vm_compute. reflexivity. Qed.

(** The largest Python int that converts to float64 is [2^1024 - 2^970 - 1],
    which rounds down to the largest float64. *)
Example largest_convertible_int :
  int_to_float (2 ^ 1024 - 2 ^ 970 - 1) = Ok 0x1.fffffffffffffp1023%float.
Proof. vm_compute. reflexivity. Qed.

Example smallest_inconvertible_int :
  int_to_float (2 ^ 1024 - 2 ^ 970) = Raise OverflowError
  /\ int_to_float (- (2 ^ 1024 - 2 ^ 970)) = Raise OverflowError.
Proof. split; vm_compute; reflexivity. Qed.

(** With [l = 2^512] the product [l * (l + 1)] is too large to convert, and
    the call raises whatever [pow] is. *)
Example overflowing_l_raises (pow : float -> Z -> float) :
  numerov_solve pow well 1%positive 1.5%float (2 ^ 512)
    (grid_state [0.5; 1; 1.5]%float)
  = Raise OverflowError.
Proof.
  apply (numerov_solve_int_raise pow well 1%positive 1.5%float (2 ^ 512)
           [0.5; 1; 1.5]%float).
  - reflexivity.
  - cbn [length]. lia.
  - vm_compute. reflexivity.
Qed.

Lemma Some_float_neq (x y : float) :
  (x =? y)%float = false -> (x =? x)%float = true -> Some x <> Some y.
Proof.
  intros Hxy Hxx E.
  apply (f_equal (fun o => match o with Some z => z | None => x end)) in E.
  cbv beta iota in E. rewrite <- E, Hxx in Hxy. discriminate Hxy.
Qed.

(** C1, as stated, fails: called with third argument [-1] (a bound state, were
    it [k2]) on [demo_grid] with the square well and [l = 0], the code has
    [V_eff[0] = -10] and [f[0] = 11 = (-1)**2 - V_eff[0]], not
    [-1 - V_eff[0] = 9]. *)
Lemma driver_is_not_third_argument_minus_V_eff :
  exists Ve f s1 s2,
    V_eff well 1%positive 0 (grid_state demo_grid) = Ok (Ve, s1)
    /\ numerov_f powi well 1%positive (-1)%float 0 (grid_state demo_grid) = Ok (f, s2)
    /\ Ve !! 0 = Some (-10)%float
    /\ f !! 0 = Some 11%float
    /\ f !! 0 <> Some (-1 - -10)%float.
Proof.
  eexists _, _, _, _.
  split; [vm_compute; reflexivity|].
  split; [vm_compute; reflexivity|].
  split; [reflexivity|]. split; [reflexivity|].
  apply Some_float_neq; reflexivity.
Qed.

(** The driver on [demo_grid] with the square well, third argument [-1] and
    [l = 0]. *)
Lemma driver_is_k_squared_minus_V_eff_witness :
  exists r_0 r_1 u s0 Ve s1 f s2,
    demo_grid !! 0 = Some r_0 /\ demo_grid !! 1 = Some r_1
    /\ arrays s0 !! 1%positive = Some demo_grid
    /\ numerov_solve powi well 1%positive (-1)%float 0 (grid_state demo_grid)
       = bind (numerov_f powi well 1%positive (-1)%float 0)
           (fun f' =>
              bind (for_each (seq 1 (length demo_grid - 2))
                      (numerov_step powi (r_1 - r_0) f' u))
                (fun _ => ret (1%positive, u))) s0
    /\ V_eff well 1%positive 0 s0 = Ok (Ve, s1)
    /\ numerov_f powi well 1%positive (-1)%float 0 s0 = Ok (f, s2)
    /\ length Ve = length demo_grid /\ length f = length demo_grid
    /\ forall i x, demo_grid !! i = Some x ->
         exists v,
           Ve !! i = Some v
           /\ v = (well x + 0 / (x * x))%float
           /\ f !! i = Some (1 - v)%float.
Proof.
  apply (driver_is_k_squared_minus_V_eff powi well 1%positive (-1)%float 0
           (grid_state demo_grid) demo_grid 0%float 1%float).
  - reflexivity.
  - cbn [demo_grid length]. lia.
  - reflexivity.
  - reflexivity.
Defined.

(** The recurrence on [demo_grid], with the square well, [k = 1.5] and
    [l = 0]. *)
Lemma numerov_solve_recurrence_witness :
  exists u s' us f s_f r_0 r_1,
    numerov_solve powi well 1%positive 1.5%float 0 (grid_state demo_grid)
    = Ok ((1%positive, u), s')
    /\ arrays s' !! u = Some us
    /\ numerov_f powi well 1%positive 1.5%float 0 (grid_state demo_grid) = Ok (f, s_f)
    /\ demo_grid !! 0 = Some r_0 /\ demo_grid !! 1 = Some r_1
    /\ forall i, 1 <= i <= length demo_grid - 2 ->
         exists f_m f_i f_p u_m u_i,
           f !! (i - 1) = Some f_m /\ f !! i = Some f_i
           /\ f !! (i + 1) = Some f_p
           /\ us !! (i - 1) = Some u_m /\ us !! i = Some u_i
           /\ us !! (i + 1) =
                Some ((2 * (1 - (5 * powi (r_1 - r_0) 2 / 12) * f_i) * u_i
                       - (1 + (powi (r_1 - r_0) 2 / 12) * f_m) * u_m)
                      / (1 + (powi (r_1 - r_0) 2 / 12) * f_p))%float.
Proof.
  apply (numerov_solve_recurrence powi well 1%positive 1.5%float 0
           (grid_state demo_grid) demo_grid 0%float 2.25%float).
  - reflexivity.
  - cbn [demo_grid length]. lia.
  - reflexivity.
  - reflexivity.
Defined.

(** The seed values on [demo_grid]. *)
Lemma numerov_solve_seed_witness :
  exists u s' us r_1,
    numerov_solve powi well 1%positive 1.5%float 0 (grid_state demo_grid)
    = Ok ((1%positive, u), s')
    /\ arrays s' !! u = Some us
    /\ demo_grid !! 1 = Some r_1
    /\ us !! 0 = Some 0%float
    /\ us !! 1 = Some (powi r_1 (0 + 1)).
Proof.
  apply (numerov_solve_seed powi well 1%positive 1.5%float 0
           (grid_state demo_grid) demo_grid 0%float 2.25%float).
  - reflexivity.
  - cbn [demo_grid length]. lia.
  - reflexivity.
  - reflexivity.
Defined.

(** C4, as stated, fails: on the grid [0, 1, 2] with [l = 1] the call raises
    nothing and returns [u = [0, 1, nan]]. *)
Lemma zero_origin_does_not_fail :
  exists s',
    numerov_solve powi well 1%positive 1.5%float 1 (grid_state [0; 1; 2]%float)
    = Ok ((1%positive, 2%positive), s')
    /\ arrays s' !! 2%positive = Some [0; 1; nan]%float
    /\ forall e,
         numerov_solve powi well 1%positive 1.5%float 1 (grid_state [0; 1; 2]%float)
         <> Raise e.
Proof.
  eexists. split; [vm_compute; reflexivity|].
  split; [reflexivity|]. intros e H. vm_compute in H. discriminate H.
Qed.

(** The NaN on the grid [0, 1, 2]. *)
Lemma zero_origin_yields_nan_witness :
  exists u s' us,
    numerov_solve powi well 1%positive 1.5%float 1 (grid_state [0; 1; 2]%float)
    = Ok ((1%positive, u), s')
    /\ arrays s' !! u = Some us
    /\ us !! 2 = Some nan.
Proof.
  apply (zero_origin_yields_nan powi well 1%positive 1.5%float
           (grid_state [0; 1; 2]%float) [0; 1; 2]%float 0%float 2.25%float).
  - reflexivity.
  - cbn [length]. lia.
  - reflexivity.
  - reflexivity.
  - reflexivity.
Defined.

(** C5, as stated, fails: the output is not the wavefunction.  On
    [demo_grid] the call returns a pair of arrays, and the first of them is
    the grid, [0.5, 1, 1.5, 2]; the wavefunction, which starts with
    [0, 1], is the second. *)
Lemma output_is_grid_and_wavefunction :
  exists out s' first second,
    numerov_solve powi well 1%positive 1.5%float 0 (grid_state demo_grid)
    = Ok (out, s')
    /\ arrays s' !! fst out = Some first
    /\ arrays s' !! snd out = Some second
    /\ first = demo_grid
    /\ second !! 0 = Some 0%float /\ second !! 1 = Some 1%float
    /\ first !! 0 <> second !! 0.
Proof.
  eexists _, _, _, _.
  split; [vm_compute; reflexivity|]. cbn [fst snd].
  split; [reflexivity|]. split; [reflexivity|].
  split; [reflexivity|]. split; [reflexivity|]. split; [reflexivity|].
  apply Some_float_neq; reflexivity.
Qed.

(** The output on [demo_grid]. *)
Lemma numerov_solve_length_witness :
  exists u s' us,
    numerov_solve powi well 1%positive 1.5%float 0 (grid_state demo_grid)
    = Ok ((1%positive, u), s')
    /\ arrays (grid_state demo_grid) !! u = None
    /\ arrays s' !! 1%positive = Some demo_grid
    /\ arrays s' !! u = Some us
    /\ length us = length demo_grid.
Proof.
  apply (numerov_solve_length powi well 1%positive 1.5%float 0
           (grid_state demo_grid) demo_grid 0%float 2.25%float).
  - reflexivity.
  - cbn [demo_grid length]. lia.
  - reflexivity.
  - reflexivity.
Defined.

(** C6, as stated, fails: a grid of two points, a non-uniform grid, a
    non-monotonic grid and an everywhere infinite potential are all accepted,
    and an array is returned. *)
Lemma malformed_inputs_are_accepted :
  (exists s',
     numerov_solve powi well 1%positive 1.5%float 0 (grid_state [1; 2]%float)
     = Ok ((1%positive, 2%positive), s')
     /\ arrays s' !! 2%positive = Some [0; 2]%float)
  /\ (exists s' us,
        numerov_solve powi well 1%positive 1.5%float 0 (grid_state [1; 2; 4]%float)
        = Ok ((1%positive, 2%positive), s')
        /\ arrays s' !! 2%positive = Some us /\ length us = 3)
  /\ (exists s' us,
        numerov_solve powi well 1%positive 1.5%float 0 (grid_state [3; 1; 2]%float)
        = Ok ((1%positive, 2%positive), s')
        /\ arrays s' !! 2%positive = Some us /\ length us = 3)
  /\ (exists s',
        numerov_solve powi (fun _ => infinity) 1%positive 1.5%float 0
          (grid_state [1; 2; 3]%float)
        = Ok ((1%positive, 2%positive), s')
        /\ arrays s' !! 2%positive = Some [0; 2; nan]%float).
Proof.
  split; [|split; [|split]].
  - eexists. split; [vm_compute; reflexivity | reflexivity].
  - eexists _, _. split; [vm_compute; reflexivity|].
    split; reflexivity.
  - eexists _, _. split; [vm_compute; reflexivity|].
    split; reflexivity.
  - eexists. split; [vm_compute; reflexivity | reflexivity].
Qed.

(** The failures, and their absence, on the non-uniform grid [1, 2, 4]. *)
Lemma numerov_solve_failures_witness :
  (length [1; 2; 4]%float < 2 ->
   numerov_solve powi well 1%positive 1.5%float 0 (grid_state [1; 2; 4]%float)
   = Raise IndexError)
  /\ (2 <= length [1; 2; 4]%float ->
      forall e, int_to_float (0 * (0 + 1)) = Raise e ->
        e = OverflowError
        /\ numerov_solve powi well 1%positive 1.5%float 0 (grid_state [1; 2; 4]%float)
           = Raise OverflowError)
  /\ (2 <= length [1; 2; 4]%float ->
      forall c e, int_to_float (0 * (0 + 1)) = Ok c ->
        float_pow powi 1.5%float 2 = Raise e ->
        e = OverflowError
        /\ numerov_solve powi well 1%positive 1.5%float 0 (grid_state [1; 2; 4]%float)
           = Raise OverflowError)
  /\ (2 <= length [1; 2; 4]%float ->
      forall c k2, int_to_float (0 * (0 + 1)) = Ok c ->
        float_pow powi 1.5%float 2 = Ok k2 ->
        exists u s' us,
          numerov_solve powi well 1%positive 1.5%float 0 (grid_state [1; 2; 4]%float)
          = Ok ((1%positive, u), s')
          /\ arrays s' !! u = Some us
          /\ length us = length [1; 2; 4]%float).
Proof.
  apply (numerov_solve_failures powi well 1%positive 1.5%float 0
           (grid_state [1; 2; 4]%float) [1; 2; 4]%float).
  reflexivity.
Defined.

(** Two calls made one after the other on [demo_grid]. *)
Lemma numerov_solve_pure_witness :
  returned_values
    (numerov_solve powi well 1%positive 1.5%float 0 (grid_state demo_grid))
  = returned_values
      (numerov_solve powi well 1%positive 1.5%float 0 after_one_call)
  /\ forall out s1',
       numerov_solve powi well 1%positive 1.5%float 0 (grid_state demo_grid)
       = Ok (out, s1') ->
       forall a xs,
         arrays (grid_state demo_grid) !! a = Some xs -> arrays s1' !! a = Some xs.
Proof.
  apply (numerov_solve_pure powi well 1.5%float 0 1%positive 1%positive
           (grid_state demo_grid) after_one_call demo_grid).
  - reflexivity.
  - vm_compute. reflexivity.
Defined.

(** C8, as stated, fails: on the grid [2^-600, 1, 2] with [l = 1] every grid
    point is positive and the only denominator of the update is not zero, yet
    the square of [r[0]] underflows to zero and the centrifugal term divides
    by it. *)
Lemma positive_grid_divides_by_zero :
  let rs := [0x1p-600; 1; 2]%float in
  Forall (fun x => (0 <? x)%float = true) rs
  /\ exists f s_f out s',
       numerov_f powi well 1%positive 1.5%float 1 (grid_state rs) = Ok (f, s_f)
       /\ (forall i f_p, 1 <= i <= length rs - 2 -> f !! (i + 1) = Some f_p ->
             (1 + (powi (1 - 0x1p-600) 2 / 12) * f_p =? 0)%float = false)
       /\ numerov_solve powi well 1%positive 1.5%float 1 (grid_state rs)
          = Ok (out, s')
       /\ exists d, divisors s' !! 0 = Some d /\ (d =? 0)%float = true.
Proof.
  cbv zeta. split.
  - repeat constructor.
  - eexists _, _, _, _.
    split; [vm_compute; reflexivity|].
    split.
    + intros i f_p Hi Hf. cbn [length Nat.sub] in Hi.
      assert (i = 1) as -> by lia.
      cbn [Nat.add lookup list_lookup] in Hf.
      assert (Some f_p = Some 11.75%float) as E by (rewrite <- Hf; reflexivity).
      apply (f_equal (fun o => match o with Some z => z | None => f_p end)) in E.
      cbv beta iota in E. subst f_p. reflexivity.
    + split; [vm_compute; reflexivity|].
      exists 0%float. split; reflexivity.
Qed.

(** The divisors of the call on [demo_grid] with [l = 1]. *)
Lemma divisors_nonzero_witness :
  exists out s' D,
    numerov_solve powi well 1%positive 1.5%float 1 (grid_state demo_grid)
    = Ok (out, s')
    /\ divisors s' = divisors (grid_state demo_grid) ++ D
    /\ Forall (fun d => (d =? 0)%float = false) D.
Proof.
  eapply (divisors_nonzero powi well 1%positive 1.5%float 1
            (grid_state demo_grid) demo_grid).
  - reflexivity.
  - reflexivity.
  - reflexivity.
  - vm_compute. reflexivity.
  - repeat constructor.
  - intros i f_p Hi Hf. cbn [demo_grid length Nat.sub] in Hi.
    assert (i = 1 \/ i = 2) as [-> | ->] by lia;
      (apply (f_equal
                (fun o =>
                   match o with
                   | Some z => (1 + (powi (1 - 0.5) 2 / 12) * z =? 0)%float
                   | None => false
                   end)) in Hf;
       vm_compute in Hf; symmetry; exact Hf).
Defined.

(** ** Further properties of [numerov_solve] and [square_well] *)

Section MoreFloatFacts.
Local Open Scope float_scope.

Lemma mul_nan_r x : x * nan = nan.
Proof.
  apply Prim2SF_nan_eq. rewrite mul_spec. unfold SF64mul, SFmul.
  change (Prim2SF nan) with S754_nan. destruct (Prim2SF x); reflexivity.
Qed.

Lemma mul_nan_l x : nan * x = nan.
Proof.
  apply Prim2SF_nan_eq. rewrite mul_spec. unfold SF64mul, SFmul.
  change (Prim2SF nan) with S754_nan. reflexivity.
Qed.

Lemma add_nan_r x : x + nan = nan.
Proof.
  apply Prim2SF_nan_eq. rewrite add_spec. unfold SF64add, SFadd.
  change (Prim2SF nan) with S754_nan. destruct (Prim2SF x); reflexivity.
Qed.

Lemma add_nan_l x : nan + x = nan.
Proof.
  apply Prim2SF_nan_eq. rewrite add_spec. unfold SF64add, SFadd.
  change (Prim2SF nan) with S754_nan. reflexivity.
Qed.

Lemma sub_nan_l x : nan - x = nan.
Proof.
  apply Prim2SF_nan_eq. rewrite sub_spec. unfold SF64sub, SFsub.
  change (Prim2SF nan) with S754_nan. reflexivity.
Qed.

Lemma div_nan_r x : x / nan = nan.
Proof.
  apply Prim2SF_nan_eq. rewrite div_spec. unfold SF64div, SFdiv.
  change (Prim2SF nan) with S754_nan. destruct (Prim2SF x); reflexivity.
Qed.

(** [0 < y] holds of the positive finite numbers and of [+inf] only. *)
Lemma zero_ltb_spec y :
  (0 <? y) = match Prim2SF y with
             | S754_infinity s | S754_finite s _ _ => negb s
             | _ => false
             end.
Proof.
  rewrite ltb_spec. unfold SFltb.
  change (Prim2SF 0) with (S754_zero false).
  destruct (Prim2SF y) as [s|s| |s m e]; try reflexivity; destruct s; reflexivity.
Qed.

Lemma zero_div_pos y : (0 <? y) = true -> 0 / y = 0.
Proof.
  rewrite zero_ltb_spec. intros H. apply Prim2SF_inj.
  rewrite div_spec. unfold SF64div, SFdiv.
  change (Prim2SF 0) with (S754_zero false).
  destruct (Prim2SF y) as [s|s| |s m e]; try discriminate H;
    destruct s; try discriminate H; reflexivity.
Qed.

Lemma zero_add_zero v : (v =? 0) = true -> v + 0 = 0.
Proof.
  rewrite eqb_zero_spec. intros H. apply Prim2SF_inj.
  rewrite add_spec. unfold SF64add, SFadd.
  change (Prim2SF 0) with (S754_zero false).
  destruct (Prim2SF v) as [s|s| |s m e]; try discriminate H.
  destruct s; reflexivity.
Qed.

Lemma sub_zero_r x : x - 0 = x.
Proof.
  apply Prim2SF_inj. rewrite sub_spec. unfold SF64sub, SFsub.
  change (Prim2SF 0) with (S754_zero false).
  destruct (Prim2SF x) as [s|s| |s m e]; try reflexivity.
  destruct s; reflexivity.
Qed.

(** Comparing the other way round gives the opposite answer. *)
Lemma SFcompare_antisym x y :
  SFcompare y x = option_map CompOpp (SFcompare x y).
Proof.
  destruct x as [s|s| |s m e], y as [s'|s'| |s' m' e']; try reflexivity;
    try (destruct s; reflexivity); try (destruct s'; reflexivity);
    try (destruct s, s'; reflexivity).
  cbn [SFcompare option_map].
  change (Pos.compare_cont Eq m' m) with (Pos.compare m' m).
  change (Pos.compare_cont Eq m m') with (Pos.compare m m').
  rewrite (Z.compare_antisym e e'), (Pos.compare_antisym m m').
  destruct s, s'; try reflexivity;
    destruct (e ?= e')%Z; try reflexivity;
    destruct (m ?= m')%positive; reflexivity.
Qed.

Lemma leb_not_ltb x y : (y <=? x) = true -> (x <? y) = false.
Proof.
  rewrite leb_spec, ltb_spec. unfold SFleb, SFltb.
  rewrite (SFcompare_antisym (Prim2SF x) (Prim2SF y)).
  destruct (SFcompare (Prim2SF x) (Prim2SF y)) as [[| |]|];
    cbn [option_map CompOpp]; intros H; try discriminate H; reflexivity.
Qed.

Lemma ltb_nan_l y : (nan <? y) = false.
Proof.
  rewrite ltb_spec. unfold SFltb. change (Prim2SF nan) with S754_nan.
  reflexivity.
Qed.

Lemma ltb_nan_r x : (x <? nan) = false.
Proof.
  rewrite ltb_spec. unfold SFltb. change (Prim2SF nan) with S754_nan.
  destruct (Prim2SF x); reflexivity.
Qed.

End MoreFloatFacts.

Section MoreProperties.

Variable pow : float -> Z -> float.

(** One pass of the loop turns a NaN in [u[i]] or in the driver at [i - 1],
    [i] or [i + 1] into a NaN in [u[i + 1]]. *)
Lemma numerov_relation_nan h f us i :
  numerov_relation pow h f us i ->
  us !! i = Some nan \/ f !! (i - 1) = Some nan \/ f !! i = Some nan
  \/ f !! (i + 1) = Some nan ->
  us !! (i + 1) = Some nan.
Proof.
  intros (f_m & f_i & f_p & u_m & u_i & Hfm & Hfi & Hfp & Hum & Hui & Hu) H.
  rewrite Hu. f_equal.
  destruct H as [H|[H|[H|H]]].
  - rewrite H in Hui. injection Hui as <-.
    rewrite mul_nan_r, sub_nan_l. apply div_nan_l.
  - rewrite H in Hfm. injection Hfm as <-.
    rewrite mul_nan_r, add_nan_r, mul_nan_l, sub_nan_r. apply div_nan_l.
  - rewrite H in Hfi. injection Hfi as <-.
    rewrite (mul_nan_r (5 * pow h 2 / 12)), sub_nan_r, mul_nan_r, mul_nan_l,
      sub_nan_l.
    apply div_nan_l.
  - rewrite H in Hfp. injection Hfp as <-.
    rewrite (mul_nan_r (pow h 2 / 12)), add_nan_r. apply div_nan_r.
Qed.

Lemma numerov_relation_nan_sticky h f (us : list float) :
  (forall i, 1 <= i <= length us - 2 -> numerov_relation pow h f us i) ->
  forall i j, 1 <= i <= j -> j < length us ->
    us !! i = Some nan -> us !! j = Some nan.
Proof.
  intros Hrel i j Hij Hj Hi.
  induction j as [|j IH]; [lia|].
  destruct (decide (i = S j)) as [->|Hne]; [exact Hi|].
  replace (S j) with (j + 1) by lia.
  apply (numerov_relation_nan h f us j); [apply Hrel; lia|].
  left. apply IH; lia.
Qed.

(** The Numerov loop never recovers from a NaN: on a grid of N >= 2 points,
    with [l * (l + 1)] convertible to float64 and [k**2] not overflowing, the
    call returns, and if an entry [u[i]], [i >= 1], of the returned
    wavefunction is NaN, so is every later entry. *)
Theorem nan_is_sticky (V : float -> float) (r : loc) (k : float) (l : Z)
    (s : state) (rs : list float) (c k2 : float) :
  arrays s !! r = Some rs -> 2 <= length rs ->
  int_to_float (l * (l + 1)) = Ok c -> float_pow pow k 2 = Ok k2 ->
  exists u s' us,
    numerov_solve pow V r k l s = Ok ((r, u), s')
    /\ arrays s' !! u = Some us
    /\ forall i j, 1 <= i <= j -> j < length rs ->
         us !! i = Some nan -> us !! j = Some nan.
Proof.
  destruct s as [A D]. cbn [arrays]. intros Hr Hlen Hc Hk.
  destruct (numerov_solve_ok pow V r k l rs c k2 A D Hr Hlen Hc Hk)
    as (r_0 & r_1 & us & _ & _ & Hrun & Hus & _ & _ & Hrel).
  eexists _, _, us. split; [exact Hrun|]. cbn [arrays].
  split; [apply lookup_insert_eq|].
  intros i j Hij Hj. rewrite <- Hus in Hj, Hrel.
  apply (numerov_relation_nan_sticky _ _ us Hrel i j Hij Hj).
Qed.

(** A potential that is NaN at one grid point [r[j]] silently poisons the
    result: on a grid of N >= 3 points, with [l * (l + 1)] convertible to
    float64 and [k**2] not overflowing, the call returns, and the
    wavefunction is NaN at every index from [max(2, j)] on. *)
Theorem nan_potential_poisons (V : float -> float) (r : loc) (k : float)
    (l : Z) (s : state) (rs : list float) (c k2 : float) (j : nat)
    (x : float) :
  arrays s !! r = Some rs -> 3 <= length rs ->
  int_to_float (l * (l + 1)) = Ok c -> float_pow pow k 2 = Ok k2 ->
  rs !! j = Some x -> V x = nan ->
  exists u s' us,
    numerov_solve pow V r k l s = Ok ((r, u), s')
    /\ arrays s' !! u = Some us
    /\ forall m, 2 <= m -> j <= m -> m < length rs -> us !! m = Some nan.
Proof.
  destruct s as [A D]. cbn [arrays]. intros Hr Hlen Hc Hk Hx HV.
  destruct (numerov_solve_ok pow V r k l rs c k2 A D Hr ltac:(lia) Hc Hk)
    as (r_0 & r_1 & us & _ & _ & Hrun & Hus & _ & _ & Hrel).
  eexists _, _, us. split; [exact Hrun|]. cbn [arrays].
  split; [apply lookup_insert_eq|].
  assert (Hf : map (f_at V k2 l) rs !! j = Some nan).
  { rewrite list_lookup_fmap, Hx. cbn [fmap option_fmap option_map]. f_equal.
    unfold f_at, V_eff_at. rewrite HV, add_nan_l. apply sub_nan_r. }
  assert (Hj : j < length rs) by (apply lookup_lt_Some in Hx; exact Hx).
  set (m0 := Nat.max 2 j).
  assert (Hm0 : us !! m0 = Some nan).
  { destruct (decide (j <= 1)) as [Hsmall|Hbig].
    - replace m0 with (1 + 1) by (unfold m0; lia).
      apply (numerov_relation_nan _ _ _ _ (Hrel 1 ltac:(lia))).
      right. destruct j as [|[|j]]; [left; exact Hf | right; left; exact Hf | lia].
    - replace m0 with ((j - 1) + 1) by (unfold m0; lia).
      apply (numerov_relation_nan _ _ _ _ (Hrel (j - 1) ltac:(lia))).
      right. right. right. replace (j - 1 + 1) with j by lia. exact Hf. }
  intros m Hm2 Hjm Hm. rewrite <- Hus in Hm, Hrel.
  apply (numerov_relation_nan_sticky _ _ us Hrel m0 m); [unfold m0; lia | exact Hm | exact Hm0].
Qed.

(** On a grid of exactly two points the loop body never runs: with
    [l * (l + 1)] convertible to float64 and [k**2] not overflowing, the call
    returns a new array holding the two seeds, [[0, r[1]**(l+1)]], and has
    performed the two divisions of the centrifugal term and no other. *)
Theorem two_point_grid (V : float -> float) (r : loc) (k : float) (l : Z)
    (s : state) (r_0 r_1 c k2 : float) :
  arrays s !! r = Some [r_0; r_1] ->
  int_to_float (l * (l + 1)) = Ok c -> float_pow pow k 2 = Ok k2 ->
  exists u,
    arrays s !! u = None
    /\ numerov_solve pow V r k l s
       = Ok ((r, u),
             State (<[u := [0; pow r_1 (l + 1)]%float]> (arrays s))
                   (divisors s ++ [r_0 * r_0; r_1 * r_1]%float)).
Proof.
  destruct s as [A D]. cbn [arrays divisors]. intros Hr Hc Hk.
  destruct (numerov_solve_ok pow V r k l [r_0; r_1] c k2 A D Hr
              ltac:(cbn; lia) Hc Hk)
    as (r_0' & r_1' & us & H0 & H1 & Hrun & Hus & Hu0 & Hu1 & _).
  cbn in H1. injection H1 as <-.
  exists (fresh (dom A)). split.
  - apply not_elem_of_dom. apply is_fresh.
  - rewrite Hrun. cbn [length Nat.sub].
    destruct us as [|a [|b [|d us]]]; try discriminate Hus.
    cbn in Hu0, Hu1. injection Hu0 as ->. injection Hu1 as ->.
    reflexivity.
Qed.

(** With a potential that is zero at every grid point, [l = 0] and grid
    points whose squares are positive (not underflowed), the driver is [k2]
    everywhere. *)
Lemma free_driver_constant (V : float -> float) (k2 : float) (rs : list float) :
  Forall (fun x => (V x =? 0)%float = true /\ (0 <? x * x)%float = true) rs ->
  map (f_at V k2 0) rs = replicate (length rs) k2.
Proof.
  induction 1 as [|x xs [HV Hx] _ IH]; [reflexivity|].
  cbn [map length replicate]. rewrite IH. f_equal.
  unfold f_at, V_eff_at.
  change (float_of_int (0 * (0 + 1))) with 0%float.
  rewrite (zero_div_pos _ Hx), (zero_add_zero _ HV). apply sub_zero_r.
Qed.

(** The free particle: with a potential that is zero at every grid point,
    [l = 0] and grid points whose squares are positive (not underflowed), the
    driver is exactly [k**2] at every grid point, and the returned
    wavefunction satisfies the three-term recurrence with constant
    coefficients
    [u[i+1] = (2*(1 - 5h^2/12 * k**2) * u[i] - (1 + h^2/12 * k**2) * u[i-1])
              / (1 + h^2/12 * k**2)]. *)
Theorem free_particle_recurrence (V : float -> float) (r : loc) (k : float)
    (s : state) (rs : list float) (k2 : float) :
  arrays s !! r = Some rs -> 2 <= length rs -> float_pow pow k 2 = Ok k2 ->
  Forall (fun x => (V x =? 0)%float = true /\ (0 <? x * x)%float = true) rs ->
  exists u s' us s_f r_0 r_1,
    numerov_f pow V r k 0 s = Ok (replicate (length rs) k2, s_f)
    /\ numerov_solve pow V r k 0 s = Ok ((r, u), s')
    /\ arrays s' !! u = Some us
    /\ rs !! 0 = Some r_0 /\ rs !! 1 = Some r_1
    /\ forall i, 1 <= i <= length rs - 2 ->
         exists u_m u_i,
           us !! (i - 1) = Some u_m /\ us !! i = Some u_i
           /\ us !! (i + 1) =
                Some ((2 * (1 - (5 * pow (r_1 - r_0) 2 / 12) * k2) * u_i
                       - (1 + (pow (r_1 - r_0) 2 / 12) * k2) * u_m)
                      / (1 + (pow (r_1 - r_0) 2 / 12) * k2))%float.
Proof.
  destruct s as [A D]. cbn [arrays]. intros Hr Hlen Hk Hall.
  destruct (numerov_solve_ok pow V r k 0 rs 0%float k2 A D Hr Hlen eq_refl Hk)
    as (r_0 & r_1 & us & H0 & H1 & Hrun & _ & _ & _ & Hrel).
  rewrite (free_driver_constant V k2 rs Hall) in Hrel.
  eexists _, _, us, _, r_0, r_1.
  split.
  { rewrite (numerov_f_ok pow V r k 0 rs 0%float k2 A D Hr eq_refl Hk).
    rewrite (free_driver_constant V k2 rs Hall). reflexivity. }
  split; [exact Hrun|]. cbn [arrays].
  split; [apply lookup_insert_eq|].
  split; [exact H0|]. split; [exact H1|].
  intros i Hi.
  destruct (Hrel i Hi)
    as (f_m & f_i & f_p & u_m & u_i & Hfm & Hfi & Hfp & Hum & Hui & Hu).
  apply lookup_replicate in Hfm as [-> _].
  apply lookup_replicate in Hfi as [-> _].
  apply lookup_replicate in Hfp as [-> _].
  exists u_m, u_i. split; [exact Hum|]. split; [exact Hui | exact Hu].
Qed.

(** [square_well] is 0 at the edge [r == r_0] of the well and beyond it, and
    also when the radius or the range is NaN: only [r < r_0] gives [V_0]. *)
Theorem square_well_outside (r r_0 V_0 : float) :
  (r_0 <=? r)%float = true \/ r = nan \/ r_0 = nan ->
  square_well r r_0 V_0 = 0%float.
Proof.
  unfold square_well. intros [H|[->| ->]].
  - rewrite (leb_not_ltb _ _ H). reflexivity.
  - rewrite ltb_nan_l. reflexivity.
  - rewrite ltb_nan_r. reflexivity.
Qed.

(** The divisions of a call that returns (N >= 2 points, [l * (l + 1)]
    convertible to float64, [k**2] not overflowing): one per grid point in
    the centrifugal term, then four per pass of the loop, of which three are
    by the constant 12 ([h**2 / 12] is recomputed each time): 5N - 8 in
    all. *)
Theorem divisions_performed (V : float -> float) (r : loc) (k : float) (l : Z)
    (s : state) (rs : list float) (c k2 : float) :
  arrays s !! r = Some rs -> 2 <= length rs ->
  int_to_float (l * (l + 1)) = Ok c -> float_pow pow k 2 = Ok k2 ->
  exists out s' denominators,
    numerov_solve pow V r k l s = Ok (out, s')
    /\ length denominators = length rs - 2
    /\ divisors s'
       = divisors s ++ map (fun x => (x * x)%float) rs
           ++ flat_map (fun d => [12; 12; 12; d]%float) denominators
    /\ length (divisors s') = length (divisors s) + (5 * length rs - 8).
Proof.
  destruct s as [A D]. cbn [arrays divisors]. intros Hr Hlen Hc Hk.
  destruct (numerov_solve_ok pow V r k l rs c k2 A D Hr Hlen Hc Hk)
    as (r_0 & r_1 & us & _ & _ & Hrun & _).
  set (f := map (f_at V k2 l) rs) in *.
  set (h := (r_1 - r_0)%float) in *.
  assert (Hloop : forall n a, a + n < length rs ->
            exists ds, length ds = n
              /\ loop_divisors pow h f a n
                 = flat_map (fun d => [12; 12; 12; d]%float) ds).
  { induction n as [|n IH]; intros a Ha.
    - exists []. split; reflexivity.
    - destruct (IH (S a) ltac:(lia)) as (ds & Hds & Heq).
      destruct (lookup_lt_is_Some_2 f (a + 1)) as [f_p Hfp];
        [unfold f; rewrite length_map; lia|].
      exists ((1 + pow h 2 / 12 * f_p)%float :: ds). split; [cbn; lia|].
      unfold loop_divisors in *. cbn [seq flat_map]. rewrite Heq.
      unfold step_divisors. rewrite Hfp. reflexivity. }
  destruct (Hloop (length rs - 2) 1 ltac:(lia)) as (ds & Hds & Heq).
  eexists _, _, ds. split; [exact Hrun|]. cbn [divisors].
  split; [exact Hds|]. split; [rewrite Heq; reflexivity|].
  rewrite Heq, !length_app, length_map.
  assert (Hfl : forall xs : list float,
            length (flat_map (fun d => [12; 12; 12; d]%float) xs) = 4 * length xs).
  { induction xs as [|y ys IHys]; [reflexivity|]. cbn [flat_map length app]. cbn [length] in IHys. rewrite IHys. lia. }
  rewrite Hfl, Hds. lia.
Qed.

End MoreProperties.

(** A NaN that stays: the grid [0, 1, 2, 3] with [l = 1]. *)
Lemma nan_is_sticky_witness :
  exists u s' us,
    numerov_solve powi well 1%positive 1.5%float 1
      (grid_state [0; 1; 2; 3]%float) = Ok ((1%positive, u), s')
    /\ arrays s' !! u = Some us
    /\ forall i j, 1 <= i <= j -> j < length [0; 1; 2; 3]%float ->
         us !! i = Some nan -> us !! j = Some nan.
Proof.
  apply (nan_is_sticky powi well 1%positive 1.5%float 1
           (grid_state [0; 1; 2; 3]%float) [0; 1; 2; 3]%float 2%float
           2.25%float).
  - reflexivity.
  - cbn [length]. lia.
  - reflexivity.
  - reflexivity.
Defined.

(** A potential that is NaN at the second point of the grid [1, 2, 3, 4]. *)
Lemma nan_potential_poisons_witness :
  exists u s' us,
    numerov_solve powi nan_at_two 1%positive 1.5%float 0
      (grid_state [1; 2; 3; 4]%float) = Ok ((1%positive, u), s')
    /\ arrays s' !! u = Some us
    /\ forall m, 2 <= m -> 1 <= m -> m < length [1; 2; 3; 4]%float ->
         us !! m = Some nan.
Proof.
  apply (nan_potential_poisons powi nan_at_two 1%positive 1.5%float 0
           (grid_state [1; 2; 3; 4]%float) [1; 2; 3; 4]%float 0%float
           2.25%float 1 2%float).
  - reflexivity.
  - cbn [length]. lia.
  - reflexivity.
  - reflexivity.
  - reflexivity.
  - reflexivity.
Defined.

(** The grid [1, 2]. *)
Lemma two_point_grid_witness :
  exists u,
    arrays (grid_state [1; 2]%float) !! u = None
    /\ numerov_solve powi well 1%positive 1.5%float 0 (grid_state [1; 2]%float)
       = Ok ((1%positive, u),
             State (<[u := [0; powi 2 (0 + 1)]%float]>
                      (arrays (grid_state [1; 2]%float)))
                   (divisors (grid_state [1; 2]%float)
                      ++ [1 * 1; 2 * 2]%float)).
Proof.
  apply (two_point_grid powi well 1%positive 1.5%float 0
           (grid_state [1; 2]%float) 1%float 2%float 0%float 2.25%float).
  - reflexivity.
  - reflexivity.
  - reflexivity.
Defined.

(** The free particle on [demo_grid]. *)
Lemma free_particle_recurrence_witness :
  exists u s' us s_f r_0 r_1,
    numerov_f powi (fun _ => 0%float) 1%positive 1.5%float 0 (grid_state demo_grid)
    = Ok (replicate (length demo_grid) 2.25%float, s_f)
    /\ numerov_solve powi (fun _ => 0%float) 1%positive 1.5%float 0
         (grid_state demo_grid) = Ok ((1%positive, u), s')
    /\ arrays s' !! u = Some us
    /\ demo_grid !! 0 = Some r_0 /\ demo_grid !! 1 = Some r_1
    /\ forall i, 1 <= i <= length demo_grid - 2 ->
         exists u_m u_i,
           us !! (i - 1) = Some u_m /\ us !! i = Some u_i
           /\ us !! (i + 1) =
                Some ((2 * (1 - (5 * powi (r_1 - r_0) 2 / 12) * 2.25) * u_i
                       - (1 + (powi (r_1 - r_0) 2 / 12) * 2.25) * u_m)
                      / (1 + (powi (r_1 - r_0) 2 / 12) * 2.25))%float.
Proof.
  apply (free_particle_recurrence powi (fun _ => 0%float) 1%positive 1.5%float
           (grid_state demo_grid) demo_grid 2.25%float).
  - reflexivity.
  - cbn [demo_grid length]. lia.
  - reflexivity.
  - repeat constructor.
Defined.

(** The edge of the default well, [r = r_0 = 4]. *)
Lemma square_well_outside_witness : square_well 4 4 (-10) = 0%float.
Proof.
  apply (square_well_outside 4 4 (-10)). left. reflexivity.
Defined.

(** The divisions of the call on [demo_grid]: 12 of them. *)
Lemma divisions_performed_witness :
  exists out s' denominators,
    numerov_solve powi well 1%positive 1.5%float 0 (grid_state demo_grid)
    = Ok (out, s')
    /\ length denominators = length demo_grid - 2
    /\ divisors s'
       = divisors (grid_state demo_grid)
           ++ map (fun x => (x * x)%float) demo_grid
           ++ flat_map (fun d => [12; 12; 12; d]%float) denominators
    /\ length (divisors s')
       = length (divisors (grid_state demo_grid)) + (5 * length demo_grid - 8).
Proof.
  apply (divisions_performed powi well 1%positive 1.5%float 0
           (grid_state demo_grid) demo_grid 0%float 2.25%float).
  - reflexivity.
  - cbn [demo_grid length]. lia.
  - reflexivity.
  - reflexivity.
Defined.

(** ** Properties of the prime searches *)

Section PrimeFacts.

Lemma count_from_elem len : forall a i,
  i ∈ Primes.count_from a len <-> (a <= i < a + Z.of_nat len)%Z.
Proof.
  induction len as [|len IH]; intros a i; cbn [Primes.count_from].
  - rewrite elem_of_nil. lia.
  - rewrite elem_of_cons, IH. lia.
Qed.

Lemma range_elem a b i : i ∈ Primes.range a b <-> (a <= i < b)%Z.
Proof. unfold Primes.range. rewrite count_from_elem. lia. Qed.

Lemma for_else_true n cs :
  Primes.for_else n cs = true <-> forall i, i ∈ cs -> (n mod i <> 0)%Z.
Proof.
  induction cs as [|c cs IH]; cbn [Primes.for_else].
  - split; [intros _ i Hi; inversion Hi | reflexivity].
  - destruct (Z.eqb_spec (n mod c) 0) as [E|E].
    + split; [discriminate|]. intros H. exfalso. apply (H c); [left | exact E].
    + rewrite IH. split.
      * intros H i Hi. apply elem_of_cons in Hi as [->|Hi]; [exact E | apply H; exact Hi].
      * intros H i Hi. apply H. right. exact Hi.
Qed.

(** Trial division by every [d] in [2 .. B-1] decides primality as soon as
    [B] lies above every [d] with [d*d <= n], and is at most [n]. *)
Lemma trial_division n B :
  (2 <= n)%Z -> (B <= n)%Z ->
  (forall d, 2 <= d -> d * d <= n -> d < B)%Z ->
  (forall d, 2 <= d < B -> n mod d <> 0)%Z <-> Z.prime n.
Proof.
  intros Hn HB Hsq. split.
  - intros Htrial. destruct (decide (Z.prime n)) as [Hp|Hnp]; [exact Hp|].
    exfalso.
    destruct (not_prime_divide n ltac:(lia)
                (fun H => Hnp (proj2 (prime_alt n) H)))
      as (e & He & q & Hq).
    assert (Hqpos : (1 < q < n)%Z) by nia.
    destruct (Z.le_gt_cases e q) as [Hle|Hgt].
    + apply (Htrial e).
      * split; [lia|]. apply Hsq; [lia | nia].
      * apply Z.mod_divide; [lia|]. exists q. exact Hq.
    + apply (Htrial q).
      * split; [lia|]. apply Hsq; [lia | nia].
      * apply Z.mod_divide; [lia|]. exists e. lia.
  - intros [_ Hp] d Hd Hmod.
    apply Z.mod_divide in Hmod; [|lia].
    apply (Hp d); [lia | exact Hmod].
Qed.


(** A loop that appends the indices passing a test is a filter. *)
Lemma fold_left_append_filter (P : nat -> Prop) `{!forall i, Decision (P i)}
    (step : list nat -> nat -> list nat) (l : list nat) :
  (forall acc i, i ∈ l -> step acc i = if decide (P i) then acc ++ [i] else acc) ->
  forall acc, fold_left step l acc = acc ++ filter P l.
Proof.
  induction l as [|x l IH]; intros Hstep acc; cbn [fold_left].
  - rewrite filter_nil, app_nil_r. reflexivity.
  - rewrite IH by (intros acc' i Hi; apply Hstep; right; exact Hi).
    rewrite (Hstep acc x) by left.
    rewrite filter_cons. destruct (decide (P x)).
    + rewrite <- app_assoc. reflexivity.
    + reflexivity.
Qed.

Lemma fold_outcome_append_filter (P : nat -> Prop) `{!forall i, Decision (P i)}
    (step : list nat -> nat -> Primes.outcome (list nat)) (l : list nat) :
  (forall acc i, i ∈ l ->
     step acc i = Primes.Done (if decide (P i) then acc ++ [i] else acc)) ->
  forall acc, Primes.fold_outcome step l acc = Primes.Done (acc ++ filter P l).
Proof.
  induction l as [|x l IH]; intros Hstep acc; cbn [Primes.fold_outcome].
  - rewrite filter_nil, app_nil_r. reflexivity.
  - rewrite (Hstep acc x) by left. cbn [Primes.and_then].
    rewrite IH by (intros acc' i Hi; apply Hstep; right; exact Hi).
    rewrite filter_cons. destruct (decide (P x)).
    + rewrite <- app_assoc. reflexivity.
    + reflexivity.
Qed.

Lemma filter_strongly_sorted {A} (R : relation A) (P : A -> Prop)
    `{!forall x, Decision (P x)} (l : list A) :
  StronglySorted R l -> StronglySorted R (filter P l).
Proof.
  induction 1 as [|x l Hl IH Hx]; [constructor|].
  rewrite filter_cons. destruct (decide (P x)); [|exact IH].
  constructor; [exact IH|].
  apply Forall_forall. intros y Hy. apply list_elem_of_filter in Hy as [_ Hy].
  revert y Hy. apply Forall_forall. exact Hx.
Qed.

Lemma seq_strongly_sorted len : forall a, StronglySorted lt (seq a len).
Proof.
  induction len as [|len IH]; intros a; cbn [seq]; constructor; [apply IH|].
  apply Forall_forall. intros x Hx. apply elem_of_seq in Hx. lia.
Qed.

(** What the inner loop of [brute_force] decides. *)
Lemma brute_force_inner n :
  (2 <= n)%Z -> Primes.for_else n (Primes.range 2 (n - 1)) = true <-> Z.prime n.
Proof.
  intros Hn. rewrite for_else_true.
  rewrite <- (trial_division n (n - 1) Hn ltac:(lia)) by (intros d Hd Hsq; nia).
  split; intros H d Hd; apply H; [apply range_elem; exact Hd | apply range_elem in Hd; exact Hd].
Qed.

(** What the inner loop of [smarter_search] decides, when the float square
    root is in range. *)
Lemma smarter_search_inner n s :
  (2 <= n)%Z -> (Z.sqrt n <= s < n)%Z ->
  Primes.for_else n (Primes.range 2 (s + 1)) = true <-> Z.prime n.
Proof.
  intros Hn Hs. rewrite for_else_true.
  rewrite <- (trial_division n (s + 1) Hn ltac:(lia)).
  - split; intros H d Hd; apply H; [apply range_elem; exact Hd | apply range_elem in Hd; exact Hd].
  - intros d Hd Hsq. apply Z.sqrt_le_square in Hsq; lia.
Qed.

Lemma brute_force_filter ns :
  Primes.brute_force ns = filter (prime_at ns) (seq 0 (length ns)).
Proof.
  unfold Primes.brute_force.
  rewrite (fold_left_append_filter (prime_at ns)); [reflexivity|].
  intros acc i Hi. destruct (ns !! i) as [n|] eqn:E.
  - destruct (Z.ltb_spec n 2) as [Hlt|Hge].
    + rewrite decide_False; [reflexivity|].
      intros (m & Em & Hm). rewrite E in Em. injection Em as <-.
      destruct Hm as [Hm _]. lia.
    + destruct (Primes.for_else n (Primes.range 2 (n - 1))) eqn:Hloop.
      * rewrite decide_True; [reflexivity|].
        exists n. split; [exact E|]. apply brute_force_inner; assumption.
      * rewrite decide_False; [reflexivity|].
        intros (m & Em & Hm). rewrite E in Em. injection Em as <-.
        apply brute_force_inner in Hm; [|exact Hge]. congruence.
  - rewrite decide_False; [reflexivity|].
    intros (m & Em & _). rewrite E in Em. discriminate Em.
Qed.

End PrimeFacts.

(** [brute_force] returns, in increasing order, exactly the indices of the
    prime elements of the array. *)
Theorem brute_force_spec (ns : list Z) :
  (forall index, index ∈ Primes.brute_force ns
                 <-> exists n, ns !! index = Some n /\ Z.prime n)
  /\ StronglySorted lt (Primes.brute_force ns).
Proof.
  rewrite brute_force_filter. split.
  - intros index. rewrite list_elem_of_filter, elem_of_seq. unfold prime_at.
    split; [intros [H _]; exact H|].
    intros (n & E & Hn). split; [exists n; split; assumption|].
    apply lookup_lt_Some in E. lia.
  - apply filter_strongly_sorted, seq_strongly_sorted.
Qed.

Lemma smarter_search_filter (ns : list Z) :
  (forall n, n ∈ ns -> (2 <= n)%Z -> sqrt_in_range n = true) ->
  Primes.smarter_search ns
  = Primes.Done (filter (prime_at ns) (seq 0 (length ns))).
Proof.
  intros Hsqrt. unfold Primes.smarter_search.
  rewrite (fold_outcome_append_filter (prime_at ns)); [reflexivity|].
  intros acc i Hi. apply elem_of_seq in Hi.
  destruct (lookup_lt_is_Some_2 ns i ltac:(lia)) as [n E]. rewrite E.
  destruct (Z.ltb_spec n 2) as [Hlt|Hge].
  - rewrite decide_False; [reflexivity|].
    intros (m & Em & Hm). rewrite E in Em. injection Em as <-.
    destruct Hm as [Hm _]. lia.
  - pose proof (Hsqrt n (list_elem_of_lookup_2 _ _ _ E) Hge) as Hok.
    unfold sqrt_in_range in Hok.
    destruct (Primes.int_sqrt n) as [s|e]; [|discriminate Hok].
    apply andb_true_iff in Hok as [H1 H2].
    apply Z.leb_le in H1. apply Z.ltb_lt in H2.
    cbn [Primes.and_then]. f_equal.
    destruct (Primes.for_else n (Primes.range 2 (s + 1))) eqn:Hloop.
    + rewrite decide_True; [reflexivity|].
      exists n. split; [exact E|].
      apply (smarter_search_inner n s); [exact Hge | lia | exact Hloop].
    + rewrite decide_False; [reflexivity|].
      intros (m & Em & Hm). rewrite E in Em. injection Em as <-.
      apply (smarter_search_inner n s) in Hm; [congruence | exact Hge | lia].
Qed.

(** [smarter_search] returns what [brute_force] returns, on an array in
    which every element [n >= 2] has [int(np.sqrt(n))] at least the integer
    square root of [n] and below [n]. *)
Theorem smarter_search_spec (ns : list Z) :
  (forall n, n ∈ ns -> (2 <= n)%Z -> sqrt_in_range n = true) ->
  Primes.smarter_search ns = Primes.Done (Primes.brute_force ns).
Proof.
  intros Hsqrt. rewrite brute_force_filter.
  apply smarter_search_filter. exact Hsqrt.
Qed.

(** The notebook's [test_array]. *)
Lemma smarter_search_spec_witness :
  Primes.smarter_search Primes.test_array
  = Primes.Done (Primes.brute_force Primes.test_array).
Proof.
  apply smarter_search_spec.
  intros n Hn _. revert n Hn. apply Forall_forall.
  apply (bool_decide_unpack (Forall (fun n => sqrt_in_range n = true) _)).
  vm_compute. reflexivity.
Defined.

Section SieveFacts.

Local Open Scope Z_scope.

Lemma wrap_int64_small z :
  - 2 ^ 63 <= z < 2 ^ 63 -> Primes.wrap_int64 z = z.
Proof.
  intros H. unfold Primes.wrap_int64.
  rewrite Z.mod_small by lia. lia.
Qed.

Lemma np_max_upper ns max_n :
  Primes.np_max ns = Primes.Done max_n -> forall n, n ∈ ns -> n <= max_n.
Proof.
  destruct ns as [|n0 rest]; [discriminate|]. cbn [Primes.np_max].
  intros H. injection H as <-.
  assert (Hgen : forall l acc, acc <= fold_left Z.max l acc
                               /\ forall n, n ∈ l -> n <= fold_left Z.max l acc).
  { induction l as [|x l IH]; intros acc; cbn [fold_left].
    - split; [lia|]. intros n Hn. inversion Hn.
    - destruct (IH (Z.max acc x)) as [H1 H2]. split; [lia|].
      intros n Hn. apply elem_of_cons in Hn as [->|Hn]; [lia | apply H2; exact Hn]. }
  intros n Hn. destruct (Hgen rest n0) as [H1 H2].
  apply elem_of_cons in Hn as [->|Hn]; [exact H1 | apply H2; exact Hn].
Qed.

(** A bounded search for a divisor either fails everywhere or finds one. *)
Lemma small_divisor_search (len : nat) : forall a j,
  1 <= a ->
  (forall d, a <= d < a + Z.of_nat len -> d * d <= j -> ~ (d | j))
  \/ exists d, a <= d < a + Z.of_nat len /\ d * d <= j /\ (d | j).
Proof.
  induction len as [|len IH]; intros a j Ha.
  - left. intros d Hd. lia.
  - destruct (IH (a + 1) j ltac:(lia)) as [Hnone|(d & Hd & Hsq & Hdiv)].
    + destruct (decide (a * a <= j)) as [Hsq|Hsq].
      * destruct (decide (j mod a = 0)) as [Hdiv|Hndiv].
        -- right. exists a. split; [lia|]. split; [exact Hsq|].
           apply Z.mod_divide; [lia | exact Hdiv].
        -- left. intros d Hd Hd2. destruct (decide (d = a)) as [->|Hne];
             [intros Hd'; apply Hndiv, Z.mod_divide; [lia | exact Hd']
             | apply Hnone; [lia | exact Hd2]].
      * left. intros d Hd Hd2. destruct (decide (d = a)) as [->|Hne];
          [lia | apply Hnone; [lia | exact Hd2]].
    + right. exists d. split; [lia|]. split; assumption.
Qed.

Lemma sieved_start memory max_n sieve :
  0 <= max_n ->
  Primes.np_ones memory (max_n + 1) = Primes.Done sieve ->
  sieved max_n 2 (Primes.assign_slice_false sieve 0 2 1).
Proof.
  intros Hmax. unfold Primes.np_ones.
  destruct (Z.ltb_spec (max_n + 1) 0) as [?|_]; [lia|].
  destruct (Z.of_N memory <? max_n + 1); [discriminate|].
  intros H. injection H as <-. split.
  - unfold Primes.assign_slice_false. rewrite length_imap, length_replicate.
    reflexivity.
  - intros j b. unfold Primes.assign_slice_false.
    rewrite list_lookup_imap. intros Hj.
    apply fmap_Some in Hj as (b0 & Hb0 & ->).
    apply lookup_replicate in Hb0 as [-> _].
    rewrite Z.mod_1_r.
    destruct (decide (Z.of_nat j < 2)) as [Hlt|Hge].
    + rewrite bool_decide_eq_true_2 by lia. split; [discriminate | lia].
    + rewrite bool_decide_eq_false_2 by lia. split; [|reflexivity].
      intros _. split; [lia|]. intros d Hd. lia.
Qed.

Lemma sieved_pass max_n i sieve :
  2 <= i <= max_n -> sieved max_n i sieve ->
  exists sieve',
    Primes.sieve_pass (max_n + 1) sieve i = Primes.Done sieve'
    /\ sieved max_n (i + 1) sieve'.
Proof.
  intros Hi [Hlen Hinv]. unfold Primes.sieve_pass.
  destruct (lookup_lt_is_Some_2 sieve (Z.to_nat i) ltac:(lia)) as [bi Hbi].
  rewrite Hbi. destruct bi.
  - eexists. split; [reflexivity|]. split.
    + unfold Primes.assign_slice_false. rewrite length_imap. exact Hlen.
    + intros j b. unfold Primes.assign_slice_false.
      rewrite list_lookup_imap. intros Hj.
      apply fmap_Some in Hj as (b0 & Hb0 & ->).
      pose proof (Hinv j b0 Hb0) as Hb0'.
      assert (Hjlt : Z.of_nat j < max_n + 1)
        by (apply lookup_lt_Some in Hb0; lia).
      assert (Hdiv : (Z.of_nat j - i * i) mod i = 0 <-> (i | Z.of_nat j)).
      { rewrite Z.mod_divide by lia. split; intros [q Hq].
        - exists (q + i). lia.
        - exists (q - i). lia. }
      destruct (decide (i * i <= Z.of_nat j
                        /\ (Z.of_nat j - i * i) mod i = 0)) as [[H1 H2]|Hno].
      * rewrite bool_decide_eq_true_2 by lia.
        split; [discriminate|]. intros [_ H]. exfalso.
        apply (H i); [lia | exact H1 | apply Hdiv; exact H2].
      * rewrite bool_decide_eq_false_2
          by (intros [[? ?] ?]; apply Hno; split; assumption).
        rewrite Hb0'. split; intros [Hj2 H]; (split; [exact Hj2|]).
        -- intros d Hd Hsq Hd'. destruct (decide (d = i)) as [->|Hne].
           ++ apply Hno. split; [exact Hsq | apply Hdiv; exact Hd'].
           ++ apply (H d); [lia | exact Hsq | exact Hd'].
        -- intros d Hd. apply H. lia.
  - exists sieve. split; [reflexivity|]. split; [exact Hlen|].
    intros j b Hj. rewrite (Hinv j b Hj).
    split; intros [Hj2 H]; (split; [exact Hj2|]); [|intros d Hd; apply H; lia].
    intros d Hd Hsq Hd'. destruct (decide (d = i)) as [->|Hne];
      [|apply (H d); [lia | exact Hsq | exact Hd']].
    (* [i] itself is not set, so it has a smaller divisor, which divides [j] *)
    pose proof (Hinv (Z.to_nat i) false Hbi) as Hfalse.
    rewrite Z2Nat.id in Hfalse by lia.
    destruct (small_divisor_search (Z.to_nat (i - 2)) 2 i ltac:(lia)) as [Hnone|(e & He & Hesq & Hediv)].
    + assert (false = true) as Habs; [|discriminate Habs].
      apply Hfalse. split; [lia|]. intros e He. apply Hnone. lia.
    + apply (H e); [lia | nia |].
      apply Z.divide_trans with i; assumption.
Qed.

Lemma sieved_loop max_n (n : nat) : forall I sieve,
  2 <= I -> (n = 0%nat \/ I + Z.of_nat n <= max_n + 1) ->
  sieved max_n I sieve ->
  exists sieve',
    Primes.fold_outcome (Primes.sieve_pass (max_n + 1))
      (Primes.count_from I n) sieve = Primes.Done sieve'
    /\ sieved max_n (I + Z.of_nat n) sieve'.
Proof.
  induction n as [|n IH]; intros I sieve HI Hn Hs.
  - exists sieve. split; [reflexivity|]. rewrite Z.add_0_r. exact Hs.
  - destruct Hn as [Hn|Hn]; [discriminate|].
    destruct (sieved_pass max_n I sieve ltac:(lia) Hs) as (sieve1 & Hpass & Hs1).
    destruct (IH (I + 1) sieve1 ltac:(lia) ltac:(right; lia) Hs1)
      as (sieve' & Hrun & Hs').
    exists sieve'. cbn [Primes.count_from Primes.fold_outcome].
    rewrite Hpass. cbn [Primes.and_then]. split; [exact Hrun|].
    replace (I + Z.of_nat (S n)) with (I + 1 + Z.of_nat n) by lia. exact Hs'.
Qed.

(** Once every [d] up to the square root of [max_n] has had its pass, the
    sieve holds the primes up to [max_n]. *)
Lemma sieved_primes max_n I sieve (j : nat) b :
  sieved max_n I sieve -> Z.sqrt max_n < I -> 0 <= max_n ->
  sieve !! j = Some b -> b = true <-> Z.prime (Z.of_nat j).
Proof.
  intros [Hlen Hinv] HI Hmax Hj. rewrite (Hinv j b Hj).
  assert (Hjle : Z.of_nat j <= max_n) by (apply lookup_lt_Some in Hj; lia).
  split.
  - intros [Hj2 H].
    apply (trial_division (Z.of_nat j) (Z.sqrt (Z.of_nat j) + 1) Hj2).
    + pose proof (Z.sqrt_spec (Z.of_nat j) ltac:(lia)) as Hs. cbv zeta in Hs. nia.
    + intros d Hd Hsq. apply Z.sqrt_le_square in Hsq; lia.
    + intros d Hd Hmod. apply Z.mod_divide in Hmod; [|lia].
      assert (Hsq : d * d <= Z.of_nat j) by (apply Z.sqrt_le_square; lia).
      apply (H d); [|exact Hsq | exact Hmod].
      pose proof (Z.sqrt_le_mono (Z.of_nat j) max_n Hjle). lia.
  - intros [Hj1 Hp]. split; [lia|]. intros d Hd Hsq. apply Hp. nia.
Qed.

End SieveFacts.

Section SieveSearch.

Local Open Scope Z_scope.

Lemma filter_ext_in {A} (P Q : A -> Prop) `{!forall x, Decision (P x)}
    `{!forall x, Decision (Q x)} (l : list A) :
  (forall x, x ∈ l -> P x <-> Q x) -> filter P l = filter Q l.
Proof.
  induction l as [|x l IH]; intros Hext; [reflexivity|].
  rewrite !filter_cons.
  rewrite IH by (intros y Hy; apply Hext; right; exact Hy).
  pose proof (Hext x ltac:(left)) as Hx.
  destruct (decide (P x)), (decide (Q x)); tauto.
Qed.

Lemma filter_none {A} (P : A -> Prop) `{!forall x, Decision (P x)}
    (l : list A) :
  (forall x, x ∈ l -> ~ P x) -> filter P l = [].
Proof.
  induction l as [|x l IH]; intros Hno; [reflexivity|].
  rewrite filter_cons, decide_False by (apply Hno; left).
  apply IH. intros y Hy. apply Hno. right. exact Hy.
Qed.

Lemma np_max_elem ns max_n :
  Primes.np_max ns = Primes.Done max_n -> max_n ∈ ns.
Proof.
  destruct ns as [|n0 rest]; [discriminate|]. cbn [Primes.np_max].
  intros H. injection H as <-.
  assert (Hgen : forall l acc, fold_left Z.max l acc = acc
                               \/ fold_left Z.max l acc ∈ l).
  { induction l as [|x l IH]; intros acc; cbn [fold_left]; [left; reflexivity|].
    destruct (IH (Z.max acc x)) as [E|E].
    - rewrite E. destruct (Z.max_spec acc x) as [[_ ->]|[_ ->]];
        [right; left | left; reflexivity].
    - right. right. exact E. }
  destruct (Hgen rest n0) as [E|E]; [rewrite E; left | right; exact E].
Qed.

Lemma np_intersect1d_elem x xs ys :
  x ∈ Primes.np_intersect1d xs ys <-> x ∈ xs /\ x ∈ ys.
Proof.
  unfold Primes.np_intersect1d.
  rewrite merge_sort_Permutation, elem_of_remove_dups, list_elem_of_filter.
  tauto.
Qed.

Lemma np_nonzero_elem a (j : nat) :
  j ∈ Primes.np_nonzero a <-> a !! j = Some true.
Proof.
  unfold Primes.np_nonzero. rewrite list_elem_of_filter, elem_of_seq.
  split; [intros [H _]; exact H|]. intros H. split; [exact H|].
  apply lookup_lt_Some in H. lia.
Qed.

Lemma np_isin_length xs test : length (Primes.np_isin xs test) = length xs.
Proof. unfold Primes.np_isin. apply length_map. Qed.

Lemma np_isin_lookup xs test (j : nat) x :
  xs !! j = Some x ->
  Primes.np_isin xs test !! j = Some true <-> x ∈ test.
Proof.
  intros Hx. unfold Primes.np_isin. rewrite list_lookup_fmap, Hx.
  cbn [fmap option_fmap option_map]. split.
  - intros H.
    apply (f_equal (fun o => match o with Some b => b | None => false end)) in H.
    apply bool_decide_eq_true_1 in H. exact H.
  - intros H. f_equal. apply bool_decide_eq_true_2. exact H.
Qed.

(** The sieve after its loop, whichever way [int(np.sqrt(max_n))] came out
    within its range. *)
Lemma sieve_loop_primes max_n sieve0 s :
  0 <= max_n -> sieved max_n 2 sieve0 ->
  Z.sqrt max_n <= s -> (s <= 1 \/ s <= max_n) ->
  exists sieve,
    Primes.fold_outcome (Primes.sieve_pass (max_n + 1))
      (Primes.range 2 (s + 1)) sieve0 = Primes.Done sieve
    /\ length sieve = Z.to_nat (max_n + 1)
    /\ forall (j : nat) b, sieve !! j = Some b ->
         b = true <-> Z.prime (Z.of_nat j).
Proof.
  intros Hmax Hs0 Hs Hsmall. unfold Primes.range.
  destruct (sieved_loop max_n (Z.to_nat (s + 1 - 2)) 2 sieve0 ltac:(lia)
              ltac:(lia) Hs0) as (sieve & Hrun & Hsv).
  exists sieve. split; [exact Hrun|]. split; [exact (proj1 Hsv)|].
  intros j b Hj. apply (sieved_primes max_n _ sieve j b Hsv); [|exact Hmax | exact Hj].
  pose proof (Z.sqrt_spec max_n Hmax) as Hq. cbv zeta in Hq.
  destruct (decide (max_n < 2)); [nia | lia].
Qed.

End SieveSearch.

(** [even_smarter_search] on an array whose maximum [max_n] is a
    non-negative int64 below [2^63 - 1] with a float square root in range:
    when the sieve of [max_n + 1] elements can be allocated it returns what
    [brute_force] returns, and when it cannot it raises [MemoryError]. *)
Theorem even_smarter_search_spec (memory : N) (ns : list Z) (max_n : Z) :
  Primes.np_max ns = Primes.Done max_n ->
  (0 <= max_n < 2 ^ 63 - 1)%Z ->
  ((2 <= max_n)%Z -> sqrt_in_range max_n = true) ->
  Primes.even_smarter_search memory ns
  = if (Z.of_N memory <? max_n + 1)%Z
    then Primes.Fail Primes.MemoryError
    else Primes.Done (Primes.brute_force ns).
Proof.
  intros Hmax Hrange Hsqrt. unfold Primes.even_smarter_search.
  rewrite Hmax. cbn [Primes.and_then].
  rewrite wrap_int64_small by lia.
  destruct (Z.ltb_spec (Z.of_N memory) (max_n + 1)) as [Hmem|Hmem].
  { unfold Primes.np_ones.
    destruct (Z.ltb_spec (max_n + 1) 0); [lia|].
    destruct (Z.ltb_spec (Z.of_N memory) (max_n + 1)); [reflexivity | lia]. }
  destruct (Primes.np_ones memory (max_n + 1)) as [sieve0|e] eqn:Hones.
  2:{ unfold Primes.np_ones in Hones.
      destruct (Z.ltb_spec (max_n + 1) 0); [lia|].
      destruct (Z.ltb_spec (Z.of_N memory) (max_n + 1));
        [lia | discriminate Hones]. }
  cbn [Primes.and_then].
  pose proof (sieved_start memory max_n sieve0 ltac:(lia) Hones) as Hstart.
  assert (Hs : exists s, Primes.int_sqrt max_n = Primes.Done s
                         /\ (Z.sqrt max_n <= s)%Z /\ (s <= 1 \/ s <= max_n)%Z).
  { destruct (decide (2 <= max_n)%Z) as [Hbig|Hsmall].
    - specialize (Hsqrt Hbig). unfold sqrt_in_range in Hsqrt.
      destruct (Primes.int_sqrt max_n) as [s|e]; [|discriminate Hsqrt].
      apply andb_true_iff in Hsqrt as [H1 H2].
      apply Z.leb_le in H1. apply Z.ltb_lt in H2.
      exists s. split; [reflexivity|]. lia.
    - assert (max_n = 0 \/ max_n = 1)%Z as [-> | ->] by lia.
      + exists 0%Z. split; [reflexivity|]. cbn. lia.
      + exists 1%Z. split; [reflexivity|]. cbn. lia. }
  destruct Hs as (s & Hint & Hs1 & Hs2). rewrite Hint. cbn [Primes.and_then].
  destruct (sieve_loop_primes max_n _ s ltac:(lia) Hstart Hs1 Hs2)
    as (sieve & Hrun & Hlen & Hprimes).
  rewrite Hrun. cbn [Primes.and_then]. f_equal.
  rewrite brute_force_filter. unfold Primes.np_nonzero at 1.
  rewrite np_isin_length.
  apply filter_ext_in. intros j Hj. apply elem_of_seq in Hj.
  destruct (lookup_lt_is_Some_2 ns j ltac:(lia)) as [n Hn].
  rewrite (np_isin_lookup ns _ j n Hn).
  assert (Hle : (n <= max_n)%Z)
    by (apply (np_max_upper ns max_n Hmax), (list_elem_of_lookup_2 _ _ _ Hn)).
  split.
  - intros H.
    apply np_intersect1d_elem in H as [H _].
    apply list_elem_of_fmap in H as (i & -> & Hi).
    apply np_nonzero_elem in Hi.
    exists (Z.of_nat i). split; [exact Hn|].
    apply (Hprimes i true Hi). reflexivity.
  - intros (m & Hm & Hp). rewrite Hn in Hm. injection Hm as <-.
    apply np_intersect1d_elem.
    split; [|apply (list_elem_of_lookup_2 _ _ _ Hn)].
    apply list_elem_of_fmap. exists (Z.to_nat n).
    destruct Hp as [Hn1 Hp'].
    split; [lia|]. apply np_nonzero_elem.
    destruct (lookup_lt_is_Some_2 sieve (Z.to_nat n) ltac:(lia)) as [b Hb].
    rewrite Hb. f_equal. apply (Hprimes _ b Hb).
    rewrite Z2Nat.id by lia. split; assumption.
Qed.

(** The notebook's [test_array], whose maximum is 4976, with room for a
    million elements. *)
Lemma even_smarter_search_spec_witness :
  Primes.even_smarter_search 1000000 Primes.test_array
  = Primes.Done (Primes.brute_force Primes.test_array).
Proof.
  apply (even_smarter_search_spec 1000000 Primes.test_array 4976).
  - reflexivity.
  - lia.
  - intros _. reflexivity.
Defined.

(** The same array with room for a thousand elements only. *)
Example sieve_does_not_fit :
  Primes.even_smarter_search 1000 Primes.test_array
  = Primes.Fail Primes.MemoryError.
Proof. reflexivity. Qed.

(** The single element [2^62] asks for a sieve of [2^62 + 1] elements. *)
Example sieve_of_a_large_element :
  Primes.even_smarter_search (2 ^ 40) [2 ^ 62]%Z
  = Primes.Fail Primes.MemoryError.
Proof. reflexivity. Qed.

(** On an array without a non-negative element (the empty array, or negative
    int64 values only) [even_smarter_search] raises [ValueError], where
    [brute_force] and [smarter_search] return the empty array. *)
Theorem even_smarter_search_raises (memory : N) (ns : list Z) :
  Forall (fun n => - 2 ^ 63 <= n < 0)%Z ns ->
  Primes.even_smarter_search memory ns = Primes.Fail Primes.ValueError
  /\ Primes.brute_force ns = []
  /\ Primes.smarter_search ns = Primes.Done [].
Proof.
  intros Hneg. rewrite Forall_forall in Hneg.
  assert (Hbrute : Primes.brute_force ns = []).
  { rewrite brute_force_filter. apply filter_none.
    intros j _ (n & Hn & [Hp _]).
    pose proof (Hneg n (list_elem_of_lookup_2 _ _ _ Hn)). lia. }
  split; [|split; [exact Hbrute|]].
  - unfold Primes.even_smarter_search.
    destruct (Primes.np_max ns) as [max_n|e] eqn:Hmax.
    + pose proof (Hneg max_n (np_max_elem ns max_n Hmax)) as Hm.
      cbn [Primes.and_then].
      rewrite wrap_int64_small by lia.
      destruct (decide (max_n = -1)%Z) as [->|Hne].
      * unfold Primes.np_ones. change (-1 + 1)%Z with 0%Z.
        change (0 <? 0)%Z with false. cbv iota.
        destruct (Z.ltb_spec (Z.of_N memory) 0) as [?|_]; [lia|].
        reflexivity.
      * unfold Primes.np_ones.
        destruct (Z.ltb_spec (max_n + 1) 0) as [_|?]; [reflexivity | lia].
    + destruct ns; [|discriminate Hmax].
      cbn in Hmax. injection Hmax as <-. reflexivity.
  - rewrite <- Hbrute, brute_force_filter. apply smarter_search_filter.
    intros n Hn Hn2. pose proof (Hneg n Hn). lia.
Qed.

(** An array of negative numbers. *)
Lemma even_smarter_search_raises_witness :
  Primes.even_smarter_search 1000000 [-3; -1; -7]%Z
  = Primes.Fail Primes.ValueError
  /\ Primes.brute_force [-3; -1; -7]%Z = []
  /\ Primes.smarter_search [-3; -1; -7]%Z = Primes.Done [].
Proof.
  apply even_smarter_search_raises.
  repeat constructor; cbn; lia.
Defined.
